(** * multi-agent-starter: the routing workflow, the backoff executor and
      the response formatter

    A shallow embedding of [agents.py], [graph.py] and [main.py].

    - Python [str] values are sequences of Unicode code points ([pystr]).
    - Code that talks to the remote model threads an explicit system state
      (the remote world plus the trace of prints and sleeps) and returns
      either a value or the exception it raised.
    - Dictionaries are [gmap]s. *)

From Stdlib Require Import ZArith NArith Lia List String Ascii Bool.
From stdpp Require Import base gmap list strings.

Open Scope Z_scope.

(** ** Python strings *)

Module PyStr.

(** A character is a Unicode code point. *)
Definition char := N.
Definition pystr := list char.

(** ASCII literals. *)
Definition py (s : string) : pystr :=
  List.map N_of_ascii (list_ascii_of_string s).

Definition nl : char := 10%N.

(** [str.isspace] for one character: the code points that [str.strip()]
    removes when called without argument. *)
Definition is_space (c : char) : bool :=
  ((9 <=? c) && (c <=? 13) ||
   (28 <=? c) && (c <=? 32) ||
   (c =? 133) || (c =? 160) || (c =? 5760) ||
   (8192 <=? c) && (c <=? 8202) ||
   (c =? 8232) || (c =? 8233) || (c =? 8239) || (c =? 8287) ||
   (c =? 12288))%N.

(** [s.lstrip()] *)
Fixpoint lstrip (s : pystr) : pystr :=
  match s with
  | [] => []
  | c :: r => if is_space c then lstrip r else s
  end.

(** [s.rstrip()] *)
Fixpoint rstrip (s : pystr) : pystr :=
  match s with
  | [] => []
  | c :: r =>
      match rstrip r with
      | [] => if is_space c then [] else [c]
      | r' => c :: r'
      end
  end.

(** [s.strip()] *)
Definition strip (s : pystr) : pystr := rstrip (lstrip s).

(** [s.startswith(p)] *)
Fixpoint startswith (p s : pystr) : bool :=
  match p, s with
  | [], _ => true
  | _ :: _, [] => false
  | a :: p', b :: s' => (a =? b)%N && startswith p' s'
  end.

(** [s.split(sep)] for a one-character separator: never empty. *)
Fixpoint split (sep : char) (s : pystr) : list pystr :=
  match s with
  | [] => [[]]
  | c :: r =>
      if (c =? sep)%N then [] :: split sep r
      else match split sep r with
           | [] => [[c]]
           | h :: t => (c :: h) :: t
           end
  end.

(** [s.replace(old, new)]: every non-overlapping occurrence of [old],
    scanning from the left.  [skip] counts the characters of an occurrence
    that was just matched and is still to be dropped. *)
Fixpoint replace_from (old new : pystr) (skip : nat) (s : pystr) : pystr :=
  match s with
  | [] => []
  | c :: r =>
      match skip with
      | S k => replace_from old new k r
      | O =>
          if startswith old s
          then new ++ replace_from old new (Nat.pred (length old)) r
          else c :: replace_from old new O r
      end
  end.

Definition replace (old new s : pystr) : pystr :=
  match old with
  | [] => new ++ flat_map (fun c => c :: new) s
  | _ :: _ => replace_from old new O s
  end.

(** [s[1:]] *)
Definition from1 (s : pystr) : pystr := drop 1 s.

(** [str.lower()] restricted to ASCII text: used to instantiate the
    case-mapping parameter on concrete inputs. *)
Definition ascii_lower_char (c : char) : char :=
  if ((65 <=? c) && (c <=? 90))%N then (c + 32)%N else c.
Definition ascii_lower (s : pystr) : pystr := List.map ascii_lower_char s.

End PyStr.

Import PyStr.

(** ** Exceptions, observable events and the effect monad *)

(** The exceptions that can travel through the workflow.  [OtherException]
    stands for any further subclass of [Exception]; [BaseOnly] for a
    [BaseException] that is not an [Exception] (no [except] clause of
    [retry_with_backoff] matches it). *)
Inductive exn : Type :=
| OverloadedError
| AuthenticationError
| KeyError (key : pystr)
| AttributeError (attr : pystr)
| ValueError
| RoutingMiss (token : pystr)
| GraphRecursionError
| OtherException (tag : pystr)
| BaseOnly (tag : pystr).

Inductive res (A : Type) : Type :=
| Ok (a : A)
| Raise (e : exn).
Arguments Ok {A} a.
Arguments Raise {A} e.

(** What the program prints; the wording of the messages is not modelled. *)
Inductive notice : Type :=
| NOverloaded (delay : Z)
| NAuthError
| NError (e : exn)
| NAnalyzing
| NDecision (decision : pystr)
| NCodeAgent
| NGenericAgent.

Inductive event : Type :=
| EvPrint (n : notice)
| EvSleep (delay : Z)
| EvNode (name : string).

Definition is_sleep (ev : event) : option Z :=
  match ev with EvSleep d => Some d | _ => None end.

(** The delays slept, in order. *)
Definition sleeps (tr : list event) : list Z := omap is_sleep tr.

Section Effects.

(** The state of the remote service, as far as successive calls see it. *)
Context {World : Type}.

Record Sys : Type := mkSys { world : World; trace : list event }.

Definition M (A : Type) : Type := Sys -> res A * Sys.

Definition ret {A} (a : A) : M A := fun s => (Ok a, s).
Definition raise {A} (e : exn) : M A := fun s => (Raise e, s).
Definition bind {A B} (m : M A) (k : A -> M B) : M B :=
  fun s => match m s with
           | (Ok a, s') => k a s'
           | (Raise e, s') => (Raise e, s')
           end.

Definition emit (ev : event) : M unit :=
  fun s => (Ok tt, mkSys (world s) (trace s ++ [ev])).

(** [print(...)] *)
Definition print (n : notice) : M unit := emit (EvPrint n).

(** [time.sleep(delay)] for a delay the interpreter can convert, that is of
    at most 9223372036 seconds in magnitude: a negative delay raises
    [ValueError].  Beyond that range CPython raises [OverflowError]
    instead, which is not modelled: a property that would depend on it
    carries the range as a hypothesis (see [max_sleep]). *)
Definition time_sleep (delay : Z) : M unit :=
  if delay <? 0 then raise ValueError else emit (EvSleep delay).

(** A call of a closure that only touches the remote world. *)
Definition call {A} (func : World -> res A * World) : M A :=
  fun s => let (r, w) := func (world s) in (r, mkSys w (trace s)).

End Effects.

Arguments Sys World : clear implicits.
Arguments M World A : clear implicits.

Declare Scope eff_scope.
Delimit Scope eff_scope with eff.
Notation "x <- m ;; k" := (bind m (fun x => k))
  (at level 100, m at next level, right associativity) : eff_scope.
Notation "m ;;; k" := (bind m (fun _ => k))
  (at level 100, right associativity) : eff_scope.
Open Scope eff_scope.

(** ** agents.py: the backoff executor *)

Section Backoff.

Context {World A : Type}.
Variable func : World -> res A * World.
Variables max_retries initial_delay : Z.

(** The body of [for attempt in range(max_retries)]: [n] iterations are
    left and the loop variable is [attempt].  The result is [None] when
    the loop runs out, which is what Python returns by falling off the
    end of the function. *)
Fixpoint retry_loop (n : nat) (attempt : Z) : M World (option A) :=
  match n with
  | O => ret None
  | S n' =>
      fun s =>
        match call func s with
        | (Ok v, s1) => (Ok (Some v), s1)
        | (Raise e, s1) =>
            match e with
            | OverloadedError =>
                if attempt =? max_retries - 1 then (Raise e, s1)
                else
                  let delay := initial_delay * 2 ^ attempt in
                  (print (NOverloaded delay) ;;;
                   time_sleep delay ;;;
                   retry_loop n' (attempt + 1)) s1
            | AuthenticationError =>
                (print NAuthError ;;; raise e) s1
            | BaseOnly _ => (Raise e, s1)
            | _ => (print (NError e) ;;; raise e) s1
            end
        end
  end.

Definition retry_with_backoff : M World (option A) :=
  retry_loop (Z.to_nat max_retries) 0.

End Backoff.

Definition default_max_retries : Z := 3.
Definition default_initial_delay : Z := 1.

(** ** The raw model response *)

(** Metadata values carried by a response. *)
Inductive pyval : Type :=
| VStr (s : pystr)
| VInt (n : Z)
| VNone
| VDict (d : gmap pystr Z).

(** A response as the remote endpoint delivers it, probed the way the
    program does: its [str()] rendering and the attributes read with
    [hasattr]/[getattr]; [None] is an absent attribute.  The [content]
    attribute, when present, is text.  An arbitrary object, whose [content]
    may hold something else, is a [PyObject] below. *)
Record RawResponse : Type := mkRaw {
  as_text : pystr;
  attr_content : option pystr;
  attr_id : option pyval;
  attr_model : option pyval;
  attr_run_id : option pyval;
  attr_stop_reason : option pyval;
  attr_usage : option pyval
}.

(** A plain [str] passed where a response is expected. *)
Definition raw_of_str (s : pystr) : RawResponse :=
  mkRaw s None None None None None None.

(** Python's [None] passed where a response is expected. *)
Definition raw_of_none : RawResponse := raw_of_str (py "None").

(** ** graph.py: the workflow state *)

(** [AgentState]: a dictionary with the keys [input], [output] and
    [decision], each of which may be absent.  The value of [output] may be
    Python's [None]. *)
Record AgentState : Type := mkState {
  input : option pystr;
  output : option (option RawResponse);
  decision : option pystr
}.

(** ** agents.py: the three agents *)

Inductive template : Type :=
| classify_template
| code_template
| generic_template.

Section Agents.

Context {World : Type}.

(** [(prompt | llm).invoke({"input": q})]: the remote call. *)
Variable chain_invoke : template -> pystr -> World -> res RawResponse * World.

(** [str.lower]: Unicode case mapping, a primitive of the language. *)
Variable lower : pystr -> pystr.

(** The closure [invoke_chain]: [state["input"]] is read at each call. *)
Definition invoke_chain (t : template) (state : AgentState)
  : World -> res RawResponse * World :=
  fun w =>
    match input state with
    | None => (Raise (KeyError (py "input")), w)
    | Some q => chain_invoke t q w
    end.

(** [response.content] *)
Definition get_content (response : option RawResponse) : M World pystr :=
  match response with
  | None => raise (AttributeError (py "content"))
  | Some r =>
      match attr_content r with
      | None => raise (AttributeError (py "content"))
      | Some c => ret c
      end
  end.

(** [state["input"]] *)
Definition get_input (state : AgentState) : M World pystr :=
  match input state with
  | None => raise (KeyError (py "input"))
  | Some q => ret q
  end.

Definition analyze_question (state : AgentState) : M World AgentState :=
  print NAnalyzing ;;;
  response <- retry_with_backoff (invoke_chain classify_template state)
                default_max_retries default_initial_delay ;;
  content <- get_content response ;;
  let decision := lower (strip content) in
  print (NDecision decision) ;;;
  q <- get_input state ;;
  ret (mkState (Some q) None (Some decision)).

Definition answer_code_question (state : AgentState) : M World AgentState :=
  print NCodeAgent ;;;
  response <- retry_with_backoff (invoke_chain code_template state)
                default_max_retries default_initial_delay ;;
  ret (mkState None (Some response) None).

Definition answer_generic_question (state : AgentState) : M World AgentState :=
  print NGenericAgent ;;;
  response <- retry_with_backoff (invoke_chain generic_template state)
                default_max_retries default_initial_delay ;;
  ret (mkState None (Some response) None).

End Agents.

(** ** The workflow runtime *)

Module Runtime.

(** Modelled from the spec: the name of the terminal pseudo-node, where a
    run is done. *)
Definition END : string := "__end__".

Section Graph.

Context {World : Type}.

(** Modelled from the spec: a node is an agent, from the current state to
    the keys it sets. *)
Definition node_fn : Type := AgentState -> M World AgentState.

(** Modelled from the spec: the graph container of the workflow library
    (its implementation is not part of the sources): named nodes, one
    entry point, plain edges, and conditional edges made of a selector
    on the state and a routing table from tokens to node names. *)
Record StateGraph : Type := mkGraph {
  nodes : gmap string node_fn;
  entry_point : option string;
  edges : gmap string string;
  branches : gmap string ((AgentState -> res pystr) * gmap pystr string)
}.

(** Modelled from the spec: an empty graph under construction. *)
Definition new_graph : StateGraph := mkGraph ∅ None ∅ ∅.

(** Modelled from the spec: registering a node under a name. *)
Definition add_node (name : string) (fn : node_fn) (g : StateGraph) : StateGraph :=
  mkGraph (<[name := fn]> (nodes g)) (entry_point g) (edges g) (branches g).

(** Modelled from the spec: registering the selector and the routing
    table that decide the successor of [src]. *)
Definition add_conditional_edges (src : string)
    (path : AgentState -> res pystr) (path_map : gmap pystr string)
    (g : StateGraph) : StateGraph :=
  mkGraph (nodes g) (entry_point g) (edges g)
          (<[src := (path, path_map)]> (branches g)).

(** Modelled from the spec: the node a run starts at. *)
Definition set_entry_point (name : string) (g : StateGraph) : StateGraph :=
  mkGraph (nodes g) (Some name) (edges g) (branches g).

(** Modelled from the spec: an unconditional edge. *)
Definition add_edge (src dst : string) (g : StateGraph) : StateGraph :=
  mkGraph (nodes g) (entry_point g) (<[src := dst]> (edges g)) (branches g).

(** Modelled from the spec: a node returns a partial state; the keys it
    sets overwrite the current ones. *)
Definition merge (st upd : AgentState) : AgentState :=
  mkState (from_option Some (input st) (input upd))
          (from_option Some (output st) (output upd))
          (from_option Some (decision st) (decision upd)).

(** Modelled from the spec: the successor of a node that has just run.
    The decision token is looked up in the routing table; a token the
    table does not hold has no transition and is an explicit failure
    (the lookup in the table raises). *)
Definition next_node (g : StateGraph) (cur : string) (st : AgentState)
  : M World string :=
  match branches g !! cur with
  | Some (path, path_map) =>
      match path st with
      | Raise e => raise e
      | Ok token =>
          match path_map !! token with
          | Some dst => ret dst
          | None => raise (RoutingMiss token)
          end
      end
  | None =>
      match edges g !! cur with
      | Some dst => ret dst
      | None => ret END
      end
  end.

(** Modelled from the spec: one run, node after node, until the
    terminal node is reached.  Each node that runs is recorded in the
    trace.  [limit] bounds the number of steps (the library's recursion
    limit). *)
Fixpoint run_from (g : StateGraph) (limit : nat) (cur : string)
    (st : AgentState) : M World AgentState :=
  if decide (cur = END) then ret st
  else
    match limit with
    | O => raise GraphRecursionError
    | S limit' =>
        match nodes g !! cur with
        | None => raise (OtherException (py cur))
        | Some fn =>
            emit (EvNode cur) ;;;
            upd <- fn st ;;
            let st' := merge st upd in
            next <- next_node g cur st' ;;
            run_from g limit' next st'
        end
    end.

(** Modelled from the spec: the bound on the steps of one run; the graphs
    built here need two. *)
Definition recursion_limit : nat := 25.

(** Modelled from the spec: [workflow.compile()] freezes the graph. *)
Definition compile (g : StateGraph) : StateGraph := g.

(** Modelled from the spec: [graph.invoke(initial_state)]. *)
Definition invoke (g : StateGraph) (st : AgentState) : M World AgentState :=
  match entry_point g with
  | None => raise ValueError
  | Some start => run_from g recursion_limit start st
  end.

End Graph.

Arguments StateGraph World : clear implicits.
Arguments node_fn World : clear implicits.

End Runtime.

Import Runtime.

(** ** graph.py: [create_graph] *)

Section Workflow.

Context {World : Type}.
Variable chain_invoke : template -> pystr -> World -> res RawResponse * World.
Variable lower : pystr -> pystr.

(** [lambda x: x["decision"]] *)
Definition decision_of (x : AgentState) : res pystr :=
  match decision x with
  | None => Raise (KeyError (py "decision"))
  | Some d => Ok d
  end.

(** The routing table [{"code": "code_agent", "general": "generic_agent"}]. *)
Definition routing_table : gmap pystr string :=
  <[py "code" := "code_agent"%string]>
    (<[py "general" := "generic_agent"%string]> ∅).

Definition create_graph : StateGraph World :=
  let workflow := new_graph in
  let workflow := add_node "analyze" (analyze_question chain_invoke lower) workflow in
  let workflow := add_node "code_agent" (answer_code_question chain_invoke) workflow in
  let workflow := add_node "generic_agent" (answer_generic_question chain_invoke) workflow in
  let workflow := add_conditional_edges "analyze" decision_of routing_table workflow in
  let workflow := set_entry_point "analyze" workflow in
  let workflow := add_edge "code_agent" END workflow in
  let workflow := add_edge "generic_agent" END workflow in
  compile workflow.

(** The run [process_question] starts: [graph.invoke({"input": q})]. *)
Definition route (q : pystr) : M World AgentState :=
  invoke create_graph (mkState (Some q) None None).

End Workflow.

(** ** main.py: the response formatter *)

Record Content : Type := mkContent {
  main_answer : pystr;
  supporting_details : list pystr
}.

Record Metadata : Type := mkMetadata {
  response_id : pyval;
  model : pyval;
  run_id : pyval;
  stop_reason : pyval;
  token_usage : pyval
}.

Record StructuredResponse : Type := mkStructured {
  content : Content;
  metadata : Metadata
}.

Inductive section_name : Type :=
| in_main_answer
| in_supporting_details.

Definition is_supporting (sec : option section_name) : bool :=
  match sec with
  | Some in_supporting_details => true
  | _ => false
  end.

(** The loop state of [parse_response]: [current_section] and the two
    fields of [result["content"]] that the loop updates. *)
Record ParseState : Type := mkParse {
  current_section : option section_name;
  acc_content : Content
}.

Definition MAIN_ANSWER : pystr := py "MAIN_ANSWER:".
Definition SUPPORTING_DETAILS : pystr := py "SUPPORTING_DETAILS:".
Definition DASH : pystr := py "-".

(** One iteration of [for line in lines]. *)
Definition parse_line (st : ParseState) (raw_line : pystr) : ParseState :=
  let line := strip raw_line in
  match line with
  | [] => st
  | _ :: _ =>
      let c := acc_content st in
      if startswith MAIN_ANSWER line then
        mkParse (Some in_main_answer)
                (mkContent (strip (replace MAIN_ANSWER [] line))
                           (supporting_details c))
      else if startswith SUPPORTING_DETAILS line then
        mkParse (Some in_supporting_details) c
      else if startswith DASH line && is_supporting (current_section st) then
        mkParse (current_section st)
                (mkContent (main_answer c)
                           (supporting_details c ++ [strip (from1 line)]))
      else st
  end.

Definition initial_parse : ParseState := mkParse None (mkContent [] []).

(** [getattr(obj, name, default)] *)
Definition getattr (a : option pyval) (default : pyval) : pyval :=
  from_option id default a.

(** The text that is parsed: [response_text.content] when the attribute
    exists, [str(response_text)] otherwise. *)
Definition content_text (response_text : RawResponse) : pystr :=
  match attr_content response_text with
  | Some c => c
  | None => as_text response_text
  end.

(** [parse_response] on a response whose content, when present, is text:
    on such a response no operation of the function can raise.
    [parse_response_any] below is the function on an arbitrary object. *)
Definition parse_response (response_text : RawResponse) : StructuredResponse :=
  let content := content_text response_text in
  let lines := split nl (strip content) in
  let final := fold_left parse_line lines initial_parse in
  mkStructured
    (acc_content final)
    (mkMetadata
       (getattr (attr_id response_text) (VStr []))
       (getattr (attr_model response_text) (VStr []))
       (getattr (attr_run_id response_text) (VStr []))
       (getattr (attr_stop_reason response_text) (VStr []))
       (getattr (attr_usage response_text) (VDict ∅))).

(** ** main.py: the response formatter on an arbitrary object *)








(** The largest number of seconds [time.sleep] converts
    (the largest multiple of a second that fits 63 bits of nanoseconds). *)
Definition max_sleep : Z := 9223372036.

(** ** Vocabulary of the properties *)

Definition is_node (ev : event) : option string :=
  match ev with EvNode n => Some n | _ => None end.

(** The nodes that ran, in order. *)
Definition node_events (tr : list event) : list string := omap is_node tr.

(** [k] consecutive calls that each raise [OverloadedError] take the
    remote world from [w] to [w']. *)
Inductive overloaded_calls {World A : Type} (func : World -> res A * World) :
  nat -> World -> World -> Prop :=
| overloaded_none w : overloaded_calls func O w w
| overloaded_more k w w1 w' :
    func w = (Raise OverloadedError, w1) ->
    overloaded_calls func k w1 w' ->
    overloaded_calls func (S k) w w'.

(** What [k] retried attempts leave in the trace, the first of them being
    attempt number [attempt]. *)
Fixpoint backoff_events (initial_delay attempt : Z) (k : nat) : list event :=
  match k with
  | O => []
  | S k' =>
      EvPrint (NOverloaded (initial_delay * 2 ^ attempt))
        :: EvSleep (initial_delay * 2 ^ attempt)
        :: backoff_events initial_delay (attempt + 1) k'
  end.

(** What a failure that is not retried leaves in the trace. *)
Definition fatal_events (e : exn) : list event :=
  match e with
  | OverloadedError => []
  | AuthenticationError => [EvPrint NAuthError]
  | BaseOnly _ => []
  | _ => [EvPrint (NError e)]
  end.

(** What the executor hands back for the outcome of the attempt that ends
    the loop. *)
Definition final_outcome {A : Type} (r : res A) : res (option A) :=
  match r with
  | Ok v => Ok (Some v)
  | Raise e => Raise e
  end.

(** A computation is quiet when it runs no node: the nodes recorded in
    the trace are the same before and after. *)
Definition quiet {World A : Type} (m : M World A) : Prop :=
  forall s, node_events (trace (snd (m s))) = node_events (trace s).

(** The system state once the runtime has recorded that a node starts. *)
Definition log_node {World : Type} (name : string) (s : Sys World) : Sys World :=
  mkSys (world s) (trace s ++ [EvNode name]).

(** The end of a run whose last node returned [r]. *)
Definition after_node {World : Type} (st : AgentState) (r : res AgentState * Sys World)
  : res AgentState * Sys World :=
  match r with
  | (Ok upd, s) => (Ok (merge st upd), s)
  | (Raise e, s) => (Raise e, s)
  end.

(** [occurs old s]: [old] occurs somewhere in [s]. *)
Fixpoint occurs (old s : pystr) : bool :=
  startswith old s
  || match s with
     | [] => false
     | _ :: r => occurs old r
     end.

(** ** Concrete inputs *)

(** A scripted remote operation: the world is the list of outcomes still to
    come, one per call; a call consumes the first. *)
Definition scripted {A} (dflt : res A) (w : list (res A)) : res A * list (res A) :=
  match w with
  | [] => (dflt, [])
  | r :: w' => (r, w')
  end.

(** A remote model that answers from a script, whatever the prompt. *)
Definition scripted_chain (t : template) (q : pystr) (w : list (res RawResponse))
  : res RawResponse * list (res RawResponse) :=
  scripted (Raise (OtherException (py "script exhausted"))) w.

(** A response object that only carries text content. *)
Definition message (text : pystr) : RawResponse :=
  mkRaw (py "<message>") (Some text) None None None None None.

(** The text of the round-trip example. *)
Definition for_loop_text : pystr :=
  py "MAIN_ANSWER: Use a for loop" ++ nl ::
  py "SUPPORTING_DETAILS:" ++ nl ::
  py "- Initialize counter" ++ nl ::
  py "- Check condition" ++ nl ::
  py "- Increment".

Definition stray_text : pystr := py "- stray" ++ nl :: py "MAIN_ANSWER: X".

(** A main-answer line whose remainder mentions the marker again. *)
Definition repeated_marker_text : pystr := py "MAIN_ANSWER: a MAIN_ANSWER: b".

(** ** Vocabulary of the further properties *)

(** The exponential schedule: [k] delays, the first for attempt number
    [attempt]. *)
Fixpoint delays (initial_delay attempt : Z) (k : nat) : list Z :=
  match k with
  | O => []
  | S k' => initial_delay * 2 ^ attempt :: delays initial_delay (attempt + 1) k'
  end.

(** The total of a list of delays. *)
Definition sumZ (l : list Z) : Z := fold_right Z.add 0 l.

(** The remote world after [j] successive calls of [func]. *)
Fixpoint calls {World A : Type} (func : World -> res A * World) (j : nat)
    (w : World) : World :=
  match j with
  | O => w
  | S j' => calls func j' (snd (func w))
  end.

(** A text made of blanks only. *)
Definition blank (s : pystr) : bool := forallb is_space s.

Definition nonempty (s : pystr) : bool :=
  match s with
  | [] => false
  | _ :: _ => true
  end.

(** The lines as the loop of [parse_response] sees them: trimmed, the empty
    ones skipped. *)
Definition norm (ls : list pystr) : list pystr :=
  List.filter nonempty (List.map strip ls).

(** A line that carries one of the three prefixes the loop looks for. *)
Definition relevant (l : pystr) : bool :=
  startswith MAIN_ANSWER (strip l)
  || startswith SUPPORTING_DETAILS (strip l)
  || startswith DASH (strip l).

Definition no_newline (s : pystr) : bool :=
  forallb (fun c => negb (c =? nl)%N) s.

(** [sep.join(ls)] for the newline separator. *)
Fixpoint join_lines (ls : list pystr) : pystr :=
  match ls with
  | [] => []
  | [l] => l
  | l :: ls' => l ++ nl :: join_lines ls'
  end.

(** A response in the format the two answer prompts of [agents.py] ask
    for: the main answer after [MAIN_ANSWER:], the marker
    [SUPPORTING_DETAILS:], then one line per detail after a dash. *)
Definition render (main : pystr) (details : list pystr) : pystr :=
  join_lines
    ((MAIN_ANSWER ++ py " " ++ main)
       :: SUPPORTING_DETAILS
       :: List.map (fun d => DASH ++ py " " ++ d) details).

(** The fields the loop stores are trimmed. *)
Definition trimmed (c : Content) : Prop :=
  strip (main_answer c) = main_answer c
  /\ Forall (fun d => strip d = d) (supporting_details c).

(** * Properties *)

(** ** Sanity checks of the embedding *)

Example strip_ex : strip (py "  code " ++ [9%N; nl]) = py "code".
Proof. reflexivity. Qed.

Example split_ex : split nl (py "a" ++ nl :: py "b" ++ [nl]) = [py "a"; py "b"; []].
Proof. reflexivity. Qed.

Example replace_ex :
  replace (py "ab") (py "X") (py "ababcabab") = py "XXcXX".
Proof. reflexivity. Qed.

Example replace_overlap_ex : replace (py "aa") [] (py "aaa") = py "a".
Proof. reflexivity. Qed.

Example retry_ex_success_first :
  retry_with_backoff (scripted (Raise ValueError)) 3 1
    (mkSys [Ok 7%nat; Ok 8%nat] []) = (Ok (Some 7%nat), mkSys [Ok 8%nat] []).
Proof. reflexivity. Qed.

Example parse_ex_free_text :
  content (parse_response (raw_of_str (py "just some prose"))) = mkContent [] [].
Proof. reflexivity. Qed.

Example parse_ex_none :
  parse_response raw_of_none =
  mkStructured (mkContent [] [])
               (mkMetadata (VStr []) (VStr []) (VStr []) (VStr []) (VDict ∅)).
Proof. reflexivity. Qed.

(** ** The backoff executor *)

Section BackoffFacts.

Context {World A : Type}.
Variable func : World -> res A * World.
Variables max_retries initial_delay : Z.

Lemma sleeps_app (t1 t2 : list event) : sleeps (t1 ++ t2) = sleeps t1 ++ sleeps t2.
Proof. unfold sleeps. apply omap_app. Qed.


Lemma retry_loop_success n attempt w w' v tr :
  func w = (Ok v, w') ->
  retry_loop func max_retries initial_delay (S n) attempt (mkSys w tr)
  = (Ok (Some v), mkSys w' tr).
Proof. intros Hf. simpl. unfold call. simpl. rewrite Hf. reflexivity. Qed.

Lemma retry_loop_last_overloaded n attempt w w' tr :
  func w = (Raise OverloadedError, w') ->
  attempt = max_retries - 1 ->
  retry_loop func max_retries initial_delay (S n) attempt (mkSys w tr)
  = (Raise OverloadedError, mkSys w' tr).
Proof.
  intros Hf Ha. simpl. unfold call. simpl. rewrite Hf.
  apply Z.eqb_eq in Ha. rewrite Ha. reflexivity.
Qed.

Lemma retry_loop_overloaded n attempt w w' tr :
  func w = (Raise OverloadedError, w') ->
  attempt <> max_retries - 1 ->
  0 <= initial_delay * 2 ^ attempt ->
  retry_loop func max_retries initial_delay (S n) attempt (mkSys w tr)
  = retry_loop func max_retries initial_delay n (attempt + 1)
      (mkSys w' (tr ++ backoff_events initial_delay attempt 1)).
Proof.
  intros Hf Ha Hd. simpl. unfold call. simpl. rewrite Hf.
  apply Z.eqb_neq in Ha. rewrite Ha.
  unfold bind, print, time_sleep, emit. simpl.
  apply Z.ltb_ge in Hd. rewrite Hd. simpl.
  rewrite <- app_assoc. reflexivity.
Qed.

Lemma retry_loop_fatal n attempt w w' e tr :
  e <> OverloadedError ->
  func w = (Raise e, w') ->
  retry_loop func max_retries initial_delay (S n) attempt (mkSys w tr)
  = (Raise e, mkSys w' (tr ++ fatal_events e)).
Proof.
  intros He Hf. simpl. unfold call. simpl. rewrite Hf.
  destruct e; try congruence; simpl;
    try reflexivity; rewrite app_nil_r; reflexivity.
Qed.

Lemma backoff_events_app a k1 k2 :
  backoff_events initial_delay a (k1 + k2)
  = backoff_events initial_delay a k1 ++ backoff_events initial_delay (a + Z.of_nat k1) k2.
Proof.
  revert a. induction k1 as [|k1 IH]; intros a.
  - simpl. rewrite Z.add_0_r. reflexivity.
  - cbn [Nat.add backoff_events]. rewrite IH.
    replace (a + 1 + Z.of_nat k1) with (a + Z.of_nat (S k1)) by lia.
    reflexivity.
Qed.

(** The loop walks through [k] overloaded attempts that are not the last. *)
Lemma retry_loop_skip k :
  forall n attempt w0 w tr,
    overloaded_calls func k w0 w ->
    0 <= attempt ->
    attempt + Z.of_nat k < max_retries ->
    0 <= initial_delay ->
    retry_loop func max_retries initial_delay (k + n) attempt (mkSys w0 tr)
    = retry_loop func max_retries initial_delay n (attempt + Z.of_nat k)
        (mkSys w (tr ++ backoff_events initial_delay attempt k)).
Proof.
  induction k as [|k IH]; intros n attempt w0 w tr Hrun Ha Hlt Hd.
  - inversion Hrun; subst. simpl. rewrite Z.add_0_r, app_nil_r. reflexivity.
  - inversion Hrun as [|k' wa w1 wb Hf Hrest]; subst.
    cbn [Nat.add].
    rewrite (retry_loop_overloaded _ _ _ _ _ Hf); [| lia |].
    + rewrite (IH n (attempt + 1) w1 w _ Hrest); [| lia | lia | exact Hd].
      rewrite <- app_assoc.
      replace (attempt + 1 + Z.of_nat k) with (attempt + Z.of_nat (S k)) by lia.
      reflexivity.
    + apply Z.mul_nonneg_nonneg; [exact Hd | apply Z.pow_nonneg; lia].
Qed.

End BackoffFacts.

Section BackoffClaims.

Context {World A : Type}.
Variable func : World -> res A * World.

(** C2. With [max_retries = 3] and [initial_delay = 1], when attempts 1
    and 2 raise [OverloadedError] and attempt 3 either succeeds or raises
    [OverloadedError] again, the executor ends with the outcome of
    attempt 3 (its result, or the overload failure), the remote world is
    the one attempt 3 left (no fourth attempt), and the run added to the
    trace exactly two sleeps, of 1 and then 2, each after its notice:
    nothing is slept after the last attempt. *)
Theorem backoff_three_attempts (w0 w1 w2 w3 : World) (r3 : res A) (tr : list event) :
  func w0 = (Raise OverloadedError, w1) ->
  func w1 = (Raise OverloadedError, w2) ->
  func w2 = (r3, w3) ->
  (r3 = Raise OverloadedError \/ exists v, r3 = Ok v) ->
  retry_with_backoff func 3 1 (mkSys w0 tr)
  = (final_outcome r3,
     mkSys w3 (tr ++ [EvPrint (NOverloaded 1); EvSleep 1;
                      EvPrint (NOverloaded 2); EvSleep 2]))
  /\ sleeps (trace (snd (retry_with_backoff func 3 1 (mkSys w0 tr))))
     = sleeps tr ++ [1; 2].
Proof.
  intros H1 H2 H3 Hr3.
  assert (Hrun : retry_with_backoff func 3 1 (mkSys w0 tr)
                 = (final_outcome r3,
                    mkSys w3 (tr ++ [EvPrint (NOverloaded 1); EvSleep 1;
                                     EvPrint (NOverloaded 2); EvSleep 2]))).
  { unfold retry_with_backoff.
    change (Z.to_nat 3) with (2 + 1)%nat.
    rewrite (retry_loop_skip func 3 1 2 1 0 w0 w2 tr); try lia.
    - change (0 + Z.of_nat 2) with 2.
      change (backoff_events 1 0 2)
        with [EvPrint (NOverloaded 1); EvSleep 1; EvPrint (NOverloaded 2); EvSleep 2].
      destruct Hr3 as [-> | [v ->]].
      + apply retry_loop_last_overloaded; [exact H3 | reflexivity].
      + apply retry_loop_success. exact H3.
    - eapply overloaded_more; [exact H1 |].
      eapply overloaded_more; [exact H2 |]. constructor. }
  split; [exact Hrun |].
  rewrite Hrun. simpl. rewrite sleeps_app. reflexivity.
Qed.


(** C10. With [max_retries <= 0] the loop body never runs: the executor
    returns [None], raises nothing, and leaves the remote world and the
    trace as they were, so the operation was not invoked. *)
Theorem backoff_no_attempts (max_retries initial_delay : Z) (s : Sys World) :
  max_retries <= 0 ->
  retry_with_backoff func max_retries initial_delay s = (Ok None, s).
Proof.
  intros Hle. unfold retry_with_backoff.
  replace (Z.to_nat max_retries) with O by lia. reflexivity.
Qed.

End BackoffClaims.

Lemma backoff_three_attempts_witness :
  retry_with_backoff (scripted (Raise ValueError)) 3 1
    (mkSys [Raise OverloadedError; Raise OverloadedError; Ok 42%nat; Ok 43%nat] [])
  = (Ok (Some 42%nat),
     mkSys [Ok 43%nat]
           [EvPrint (NOverloaded 1); EvSleep 1; EvPrint (NOverloaded 2); EvSleep 2]).
Proof.
  apply (backoff_three_attempts (scripted (Raise ValueError))
           [Raise OverloadedError; Raise OverloadedError; Ok 42%nat; Ok 43%nat]
           [Raise OverloadedError; Ok 42%nat; Ok 43%nat]
           [Ok 42%nat; Ok 43%nat] [Ok 43%nat] (Ok 42%nat) []).
  - reflexivity.
  - reflexivity.
  - reflexivity.
  - right. exists 42%nat. reflexivity.
Defined.

Example backoff_three_overloads :
  retry_with_backoff (scripted (Raise ValueError)) 3 1
    (mkSys [Raise OverloadedError; Raise OverloadedError; Raise OverloadedError;
            Ok 7%nat] [])
  = (Raise OverloadedError,
     mkSys [Ok 7%nat]
           [EvPrint (NOverloaded 1); EvSleep 1; EvPrint (NOverloaded 2); EvSleep 2]).
Proof. reflexivity. Qed.


Example backoff_auth_first_attempt :
  retry_with_backoff (scripted (Raise ValueError)) 1000 (-3)
    (mkSys [Raise AuthenticationError; Ok 7%nat] [])
  = (Raise AuthenticationError, mkSys [Ok 7%nat] [EvPrint NAuthError]).
Proof. reflexivity. Qed.

Lemma backoff_no_attempts_witness :
  retry_with_backoff (scripted (Raise ValueError)) 0 1
    (mkSys [Ok 7%nat] []) = (Ok None, mkSys [Ok 7%nat] []).
Proof.
  apply (backoff_no_attempts (scripted (Raise ValueError)) 0 1
           (mkSys [Ok 7%nat] [])).
  lia.
Defined.

(** ** Trimming *)

Section StripFacts.

Lemma rstrip_idem (s : pystr) : rstrip (rstrip s) = rstrip s.
Proof.
  induction s as [|c r IH]; [reflexivity |].
  cbn [rstrip]. destruct (rstrip r) as [|x r'] eqn:Hr.
  - destruct (is_space c) eqn:Hc; [reflexivity |].
    cbn [rstrip]. rewrite Hc. reflexivity.
  - change (rstrip (c :: x :: r'))
      with (match rstrip (x :: r') with
            | [] => if is_space c then [] else [c]
            | y :: r'' => c :: y :: r''
            end).
    rewrite IH. reflexivity.
Qed.

Lemma lstrip_nonspace (c : char) (s : pystr) :
  is_space c = false -> lstrip (c :: s) = c :: s.
Proof. intros Hc. cbn [lstrip]. rewrite Hc. reflexivity. Qed.

Lemma rstrip_nonspace (c : char) (s : pystr) :
  is_space c = false -> rstrip (c :: s) = c :: rstrip s.
Proof.
  intros Hc. cbn [rstrip]. destruct (rstrip s); [rewrite Hc |]; reflexivity.
Qed.

Lemma lstrip_rstrip (s : pystr) : lstrip (rstrip s) = rstrip (lstrip s).
Proof.
  induction s as [|c r IH]; [reflexivity |].
  destruct (is_space c) eqn:Hc.
  - cbn [lstrip rstrip]. rewrite Hc, <- IH.
    destruct (rstrip r) as [|x r']; [reflexivity |].
    cbn [lstrip]. rewrite Hc. reflexivity.
  - rewrite (lstrip_nonspace _ _ Hc), (rstrip_nonspace _ _ Hc).
    apply lstrip_nonspace. exact Hc.
Qed.

Lemma strip_rstrip (s : pystr) : strip (rstrip s) = strip s.
Proof. unfold strip. rewrite lstrip_rstrip. apply rstrip_idem. Qed.

Lemma strip_nonspace (c : char) (s : pystr) :
  is_space c = false -> strip (c :: s) = c :: rstrip s.
Proof.
  intros Hc. unfold strip.
  rewrite (lstrip_nonspace _ _ Hc). apply rstrip_nonspace. exact Hc.
Qed.

(** Trimming removes a run of blanks at each end and nothing else. *)
Lemma lstrip_spec (s : pystr) :
  exists pre, s = pre ++ lstrip s /\ forallb is_space pre = true.
Proof.
  induction s as [|c r [pre [Heq Hpre]]]; [exists []; split; reflexivity |].
  cbn [lstrip]. destruct (is_space c) eqn:Hc.
  - exists (c :: pre). split; [simpl; f_equal; exact Heq |].
    simpl. rewrite Hc. exact Hpre.
  - exists []. split; reflexivity.
Qed.

Lemma rstrip_spec (s : pystr) :
  exists post, s = rstrip s ++ post /\ forallb is_space post = true.
Proof.
  induction s as [|c r [post [Heq Hpost]]]; [exists []; split; reflexivity |].
  cbn [rstrip]. destruct (rstrip r) as [|x r'] eqn:Hr.
  - destruct (is_space c) eqn:Hc.
    + exists (c :: post). split; [simpl in *; f_equal; exact Heq |].
      simpl. rewrite Hc. exact Hpost.
    + exists post. split; [simpl in *; f_equal; exact Heq | exact Hpost].
  - exists post. split; [| exact Hpost].
    simpl in *. f_equal. exact Heq.
Qed.

Lemma strip_spec (s : pystr) :
  exists pre post,
    s = pre ++ strip s ++ post
    /\ forallb is_space pre = true /\ forallb is_space post = true.
Proof.
  destruct (lstrip_spec s) as [pre [Hs Hpre]].
  destruct (rstrip_spec (lstrip s)) as [post [Hl Hpost]].
  exists pre, post. unfold strip. rewrite <- Hl. auto.
Qed.

Lemma lstrip_head (s : pystr) :
  match lstrip s with [] => True | c :: _ => is_space c = false end.
Proof.
  induction s as [|c r IH]; [exact I |].
  cbn [lstrip]. destruct (is_space c) eqn:Hc; [exact IH | exact Hc].
Qed.

Lemma rstrip_last (s : pystr) :
  match last (rstrip s) with None => True | Some c => is_space c = false end.
Proof.
  induction s as [|c r IH]; [exact I |].
  cbn [rstrip]. destruct (rstrip r) as [|x r'] eqn:Hr.
  - destruct (is_space c) eqn:Hc; [exact I | exact Hc].
  - exact IH.
Qed.

(** The trimmed text neither starts nor ends with a blank. *)
Lemma strip_ends (s : pystr) :
  match strip s with [] => True | c :: _ => is_space c = false end
  /\ match last (strip s) with None => True | Some c => is_space c = false end.
Proof.
  split; [| apply rstrip_last].
  unfold strip. pose proof (lstrip_head s) as Hh.
  destruct (lstrip s) as [|c r]; [exact I |].
  rewrite (rstrip_nonspace _ _ Hh). exact Hh.
Qed.

End StripFacts.

(** ** The response formatter *)

Section FormatterFacts.

Lemma dash_not_main_answer (s : pystr) : startswith MAIN_ANSWER (DASH ++ s) = false.
Proof. reflexivity. Qed.

Lemma dash_not_supporting (s : pystr) :
  startswith SUPPORTING_DETAILS (DASH ++ s) = false.
Proof. reflexivity. Qed.

Lemma strip_dash (t : pystr) : strip (DASH ++ t) = DASH ++ rstrip t.
Proof. apply strip_nonspace. reflexivity. Qed.

(** What one line that begins with a dash does to the loop state. *)
Lemma parse_line_dash (st : ParseState) (t : pystr) :
  parse_line st (DASH ++ t)
  = if is_supporting (current_section st)
    then mkParse (current_section st)
           (mkContent (main_answer (acc_content st))
                      (supporting_details (acc_content st) ++ [strip t]))
    else st.
Proof.
  unfold parse_line. rewrite strip_dash.
  change (DASH ++ rstrip t) with (45%N :: rstrip t).
  cbv iota beta zeta.
  change (45%N :: rstrip t) with (DASH ++ rstrip t).
  rewrite dash_not_main_answer, dash_not_supporting.
  change (startswith DASH (DASH ++ rstrip t)) with true.
  change (from1 (DASH ++ rstrip t)) with (rstrip t).
  rewrite strip_rstrip.
  destruct (is_supporting (current_section st)); reflexivity.
Qed.

Lemma parse_lines_dash (ts : list pystr) :
  forall st : ParseState,
    fold_left parse_line (List.map (app DASH) ts) st
    = if is_supporting (current_section st)
      then mkParse (current_section st)
             (mkContent (main_answer (acc_content st))
                        (supporting_details (acc_content st)
                           ++ List.map strip ts))
      else st.
Proof.
  induction ts as [|t ts IH]; intros st.
  - simpl. rewrite app_nil_r.
    destruct st as [sec [ma sd]]; simpl.
    destruct (is_supporting sec); reflexivity.
  - cbn [List.map fold_left]. rewrite IH, parse_line_dash.
    destruct (is_supporting (current_section st)) eqn:Hs.
    + cbn [current_section acc_content main_answer supporting_details].
      rewrite Hs, <- app_assoc. reflexivity.
    + rewrite Hs. reflexivity.
Qed.



(** A line with the [MAIN_ANSWER:] prefix overwrites the main answer,
    whatever it was, and opens the main-answer section. *)
Lemma parse_line_main (st : ParseState) (l : pystr) :
  startswith MAIN_ANSWER (strip l) = true ->
  parse_line st l
  = mkParse (Some in_main_answer)
      (mkContent (strip (replace MAIN_ANSWER [] (strip l)))
                 (supporting_details (acc_content st))).
Proof.
  intros Hl. unfold parse_line.
  destruct (strip l) as [|c r]; [discriminate |].
  rewrite Hl. reflexivity.
Qed.

Lemma parse_lines_keep_main (ls : list pystr) :
  forall st : ParseState,
    forallb (fun l => negb (startswith MAIN_ANSWER (strip l))) ls = true ->
    main_answer (acc_content (fold_left parse_line ls st))
    = main_answer (acc_content st).
Proof.
  induction ls as [|l ls IH]; intros st Hls; [reflexivity |].
  cbn [forallb] in Hls. apply andb_true_iff in Hls as [Hl Hls].
  cbn [fold_left]. rewrite (IH _ Hls).
  unfold parse_line. destruct (strip l) as [|c r] eqn:Hsl; [reflexivity |].
  apply negb_true_iff in Hl. rewrite Hl.
  destruct (startswith SUPPORTING_DETAILS (c :: r)); [reflexivity |].
  destruct (startswith DASH (c :: r) && is_supporting (current_section st));
    reflexivity.
Qed.

(** Of several lines with the prefix, the last one decides. *)
Lemma last_main_answer_wins (ls1 ls2 : list pystr) (l : pystr) (st : ParseState) :
  startswith MAIN_ANSWER (strip l) = true ->
  forallb (fun l' => negb (startswith MAIN_ANSWER (strip l'))) ls2 = true ->
  main_answer (acc_content (fold_left parse_line (ls1 ++ l :: ls2) st))
  = strip (replace MAIN_ANSWER [] (strip l)).
Proof.
  intros Hl Hls2. rewrite fold_left_app. cbn [fold_left].
  rewrite (parse_lines_keep_main _ _ Hls2), (parse_line_main _ _ Hl).
  reflexivity.
Qed.

Lemma replace_from_absent (old new s : pystr) :
  occurs old s = false -> replace_from old new O s = s.
Proof.
  induction s as [|c r IH]; intros Hs; [reflexivity |].
  cbn [occurs] in Hs. apply orb_false_iff in Hs as [Hhere Hrest].
  cbn [replace_from]. rewrite Hhere, (IH Hrest). reflexivity.
Qed.

Lemma replace_from_skip (old new p rest : pystr) :
  replace_from old new (length p) (p ++ rest) = replace_from old new O rest.
Proof.
  induction p as [|c p IH]; [destruct rest; reflexivity |].
  exact IH.
Qed.

Lemma startswith_app (p a b : pystr) :
  startswith p a = true -> startswith p (a ++ b) = true.
Proof.
  revert a. induction p as [|x p IH]; intros a Ha; [reflexivity |].
  destruct a as [|y a]; [discriminate |].
  cbn [startswith app] in *. apply andb_true_iff in Ha as [Hxy Hp].
  rewrite Hxy, (IH _ Hp). reflexivity.
Qed.

Lemma occurs_app (old a b : pystr) :
  occurs old a = true -> occurs old (a ++ b) = true.
Proof.
  induction a as [|c a IH]; intros Ha.
  - cbn [occurs] in Ha. rewrite orb_false_r in Ha.
    destruct old; [| discriminate]. destruct b; reflexivity.
  - cbn [occurs app] in *. apply orb_true_iff in Ha as [Hh | Hr].
    + pose proof (startswith_app _ _ b Hh) as Hh'. cbn [app] in Hh'.
      rewrite Hh'. reflexivity.
    + rewrite (IH Hr). apply orb_true_r.
Qed.

Lemma occurs_rstrip (old s : pystr) :
  occurs old s = false -> occurs old (rstrip s) = false.
Proof.
  intros Hs. destruct (occurs old (rstrip s)) eqn:Hr; [| reflexivity].
  destruct (rstrip_spec s) as [post [Heq _]].
  rewrite Heq, (occurs_app _ _ post Hr) in Hs. discriminate.
Qed.

Lemma strip_main_answer (rest : pystr) :
  strip (MAIN_ANSWER ++ rest) = MAIN_ANSWER ++ rstrip rest.
Proof.
  change (MAIN_ANSWER ++ rest)
    with (77 :: 65 :: 73 :: 78 :: 95 :: 65 :: 78 :: 83 :: 87 :: 69 :: 82
            :: 58 :: rest)%N.
  unfold strip. rewrite lstrip_nonspace by reflexivity.
  rewrite !rstrip_nonspace by reflexivity.
  change (MAIN_ANSWER ++ rstrip rest)
    with (77 :: 65 :: 73 :: 78 :: 95 :: 65 :: 78 :: 83 :: 87 :: 69 :: 82
            :: 58 :: rstrip rest)%N.
  reflexivity.
Qed.

(** When the marker does not occur again after the prefix, the main answer
    is the remainder of the line, trimmed. *)
Lemma parse_line_main_single (st : ParseState) (rest : pystr) :
  occurs MAIN_ANSWER rest = false ->
  parse_line st (MAIN_ANSWER ++ rest)
  = mkParse (Some in_main_answer)
      (mkContent (strip rest) (supporting_details (acc_content st))).
Proof.
  intros Hrest.
  rewrite parse_line_main; rewrite strip_main_answer;
    [| apply (startswith_app MAIN_ANSWER MAIN_ANSWER); reflexivity].
  do 2 f_equal. rewrite <- (strip_rstrip rest). f_equal.
  change (replace MAIN_ANSWER [] (MAIN_ANSWER ++ rstrip rest))
    with (replace_from MAIN_ANSWER []
            (length (List.tl MAIN_ANSWER)) (List.tl MAIN_ANSWER ++ rstrip rest)).
  rewrite replace_from_skip. apply replace_from_absent.
  apply occurs_rstrip. exact Hrest.
Qed.

End FormatterFacts.

(** C5. The formatter maps the text
    [MAIN_ANSWER: Use a for loop / SUPPORTING_DETAILS: / - Initialize counter /
     - Check condition / - Increment] (five lines) to the main answer
    [Use a for loop] and the details [Initialize counter], [Check condition],
    [Increment], in this order -- both when the text is passed as it is and
    when it is the [content] attribute of a response object. *)
Theorem parse_response_for_loop :
  content (parse_response (raw_of_str for_loop_text))
  = mkContent (py "Use a for loop")
              [py "Initialize counter"; py "Check condition"; py "Increment"]
  /\ forall (repr : pystr) (i m r s u : option pyval),
       content (parse_response (mkRaw repr (Some for_loop_text) i m r s u))
       = mkContent (py "Use a for loop")
                   [py "Initialize counter"; py "Check condition"; py "Increment"].
Proof. split; [| intros]; vm_compute; reflexivity. Qed.

(** C6. A line that begins with a dash is appended to the details, without
    its leading dash and trimmed, exactly when the current section is the
    supporting details; in any other section (none yet, or main answer) it
    changes nothing.  A run of such lines is appended in input order.  The
    text [- stray / MAIN_ANSWER: X] gives no details and the main answer
    [X]. *)
Theorem dash_lines_only_in_supporting_details :
  (forall (st : ParseState) (t : pystr),
      parse_line st (DASH ++ t)
      = if is_supporting (current_section st)
        then mkParse (current_section st)
               (mkContent (main_answer (acc_content st))
                          (supporting_details (acc_content st) ++ [strip t]))
        else st)
  /\ (forall (st : ParseState) (ts : list pystr),
        fold_left parse_line (List.map (app DASH) ts) st
        = if is_supporting (current_section st)
          then mkParse (current_section st)
                 (mkContent (main_answer (acc_content st))
                            (supporting_details (acc_content st)
                               ++ List.map strip ts))
          else st)
  /\ is_supporting None = false
  /\ is_supporting (Some in_main_answer) = false
  /\ is_supporting (Some in_supporting_details) = true
  /\ content (parse_response (raw_of_str stray_text)) = mkContent (py "X") [].
Proof.
  split; [exact parse_line_dash |].
  split; [intros st ts; apply parse_lines_dash |].
  repeat split.
Qed.

(** C4 (the code departs from it). On the one-line text
    [MAIN_ANSWER: a MAIN_ANSWER: b] the formatter stores [a  b]: every
    occurrence of the marker is deleted from the line, not only the leading
    one, whereas the remainder of the line after its prefix, trimmed, is
    [a MAIN_ANSWER: b]. *)
Theorem main_answer_drops_every_marker :
  main_answer (content (parse_response (raw_of_str repeated_marker_text)))
  = py "a  b"
  /\ startswith MAIN_ANSWER repeated_marker_text = true
  /\ strip (drop (length MAIN_ANSWER) repeated_marker_text)
     = py "a MAIN_ANSWER: b"
  /\ py "a  b" <> py "a MAIN_ANSWER: b".
Proof. repeat split. discriminate. Qed.






(** ** The router *)

Example route_ex_code :
  route scripted_chain ascii_lower (py "How do I loop?")
    (mkSys [Ok (message (py " Code ")); Ok (message for_loop_text)] [])
  = (Ok (mkState (Some (py "How do I loop?"))
                 (Some (Some (message for_loop_text)))
                 (Some (py "code"))),
     mkSys []
       [EvNode "analyze"; EvPrint NAnalyzing; EvPrint (NDecision (py "code"));
        EvNode "code_agent"; EvPrint NCodeAgent]).
Proof. vm_compute. reflexivity. Qed.

Example route_ex_general :
  route scripted_chain ascii_lower (py "Why is the sky blue?")
    (mkSys [Ok (message (py "general")); Ok (message (py "MAIN_ANSWER: X"))] [])
  = (Ok (mkState (Some (py "Why is the sky blue?"))
                 (Some (Some (message (py "MAIN_ANSWER: X"))))
                 (Some (py "general"))),
     mkSys []
       [EvNode "analyze"; EvPrint NAnalyzing; EvPrint (NDecision (py "general"));
        EvNode "generic_agent"; EvPrint NGenericAgent]).
Proof. vm_compute. reflexivity. Qed.

Example route_ex_miss :
  route scripted_chain ascii_lower (py "Hm?")
    (mkSys [Ok (message (py "Maybe code")); Ok (message (py "MAIN_ANSWER: X"))] [])
  = (Raise (RoutingMiss (py "maybe code")),
     mkSys [Ok (message (py "MAIN_ANSWER: X"))]
       [EvNode "analyze"; EvPrint NAnalyzing;
        EvPrint (NDecision (py "maybe code"))]).
Proof. vm_compute. reflexivity. Qed.

Section Quiet.

Context {World : Type}.

Lemma node_events_app (t1 t2 : list event) :
  node_events (t1 ++ t2) = node_events t1 ++ node_events t2.
Proof. unfold node_events. apply omap_app. Qed.

Lemma quiet_ret {A} (a : A) : quiet (@ret World A a).
Proof. intros s. reflexivity. Qed.

Lemma quiet_raise {A} (e : exn) : quiet (@raise World A e).
Proof. intros s. reflexivity. Qed.

Lemma quiet_print (n : notice) : quiet (@print World n).
Proof.
  intros s. unfold print, emit. simpl.
  rewrite node_events_app. simpl. apply app_nil_r.
Qed.

Lemma quiet_time_sleep (d : Z) : quiet (@time_sleep World d).
Proof.
  intros s. unfold time_sleep. destruct (d <? 0); [reflexivity |].
  unfold emit. simpl. rewrite node_events_app. simpl. apply app_nil_r.
Qed.

Lemma quiet_call {A} (f : World -> res A * World) : quiet (call f).
Proof. intros s. unfold call. destruct (f (world s)). reflexivity. Qed.

Lemma quiet_bind {A B} (m : M World A) (k : A -> M World B) :
  quiet m -> (forall a, quiet (k a)) -> quiet (bind m k).
Proof.
  intros Hm Hk s. unfold bind. specialize (Hm s).
  destruct (m s) as [[a | e] s']; simpl in *.
  - rewrite Hk. exact Hm.
  - exact Hm.
Qed.

Lemma quiet_retry_loop {A} (f : World -> res A * World) (mr d : Z) (n : nat) :
  forall attempt, quiet (retry_loop f mr d n attempt).
Proof.
  induction n as [|n IH]; intros attempt s; [reflexivity |].
  cbn [retry_loop]. pose proof (quiet_call f s) as Hc.
  destruct (call f s) as [[v | e] s1]; simpl in Hc; [exact Hc |].
  assert (Hfatal : forall nt : notice,
             node_events (trace (snd ((print nt ;;; raise e) s1
                                      : res (option A) * Sys World)))
             = node_events (trace s)).
  { intros nt. rewrite <- Hc.
    apply (quiet_bind (print nt) (fun _ => raise e));
      [apply quiet_print | intros _; apply quiet_raise]. }
  destruct e; try apply Hfatal; [| exact Hc].
  destruct (attempt =? mr - 1); [exact Hc |].
  rewrite <- Hc.
  apply (quiet_bind (print _)
           (fun _ => time_sleep _ ;;; retry_loop f mr d n (attempt + 1)));
    [apply quiet_print |].
  intros _. apply quiet_bind; [apply quiet_time_sleep | intros _; apply IH].
Qed.

Lemma quiet_retry_with_backoff {A} (f : World -> res A * World) (mr d : Z) :
  quiet (retry_with_backoff f mr d).
Proof. apply quiet_retry_loop. Qed.

Variable chain_invoke : template -> pystr -> World -> res RawResponse * World.
Variable lower : pystr -> pystr.

Lemma quiet_get_content (r : option RawResponse) : quiet (@get_content World r).
Proof.
  unfold get_content. destruct r as [r |]; [| apply quiet_raise].
  destruct (attr_content r); [apply quiet_ret | apply quiet_raise].
Qed.

Lemma quiet_get_input (st : AgentState) : quiet (@get_input World st).
Proof.
  unfold get_input. destruct (input st); [apply quiet_ret | apply quiet_raise].
Qed.

Lemma quiet_analyze_question (st : AgentState) :
  quiet (analyze_question chain_invoke lower st).
Proof.
  unfold analyze_question.
  apply quiet_bind; [apply quiet_print | intros _].
  apply quiet_bind; [apply quiet_retry_with_backoff | intros r].
  apply quiet_bind; [apply quiet_get_content | intros c].
  apply quiet_bind; [apply quiet_print | intros _].
  apply quiet_bind; [apply quiet_get_input | intros q; apply quiet_ret].
Qed.

Lemma quiet_answer_code_question (st : AgentState) :
  quiet (answer_code_question chain_invoke st).
Proof.
  unfold answer_code_question.
  apply quiet_bind; [apply quiet_print | intros _].
  apply quiet_bind; [apply quiet_retry_with_backoff | intros r; apply quiet_ret].
Qed.

Lemma quiet_answer_generic_question (st : AgentState) :
  quiet (answer_generic_question chain_invoke st).
Proof.
  unfold answer_generic_question.
  apply quiet_bind; [apply quiet_print | intros _].
  apply quiet_bind; [apply quiet_retry_with_backoff | intros r; apply quiet_ret].
Qed.

End Quiet.

Section RouterFacts.

Context {World : Type}.
Variable chain_invoke : template -> pystr -> World -> res RawResponse * World.
Variable lower : pystr -> pystr.

Abbreviation graph := (create_graph chain_invoke lower).

Lemma run_from_end (g : StateGraph World) (limit : nat) (st : AgentState)
    (s : Sys World) :
  run_from g limit END st s = (Ok st, s).
Proof. destruct limit; reflexivity. Qed.

Lemma run_from_node (g : StateGraph World) (limit : nat) (cur : string)
    (fn : node_fn World) (st : AgentState) (s : Sys World) :
  cur <> END ->
  nodes g !! cur = Some fn ->
  run_from g (S limit) cur st s
  = (upd <- fn st ;;
     next <- next_node g cur (merge st upd) ;;
     run_from g limit next (merge st upd)) (log_node cur s).
Proof.
  intros Hne Hfn. cbn [run_from].
  destruct (decide (cur = END)) as [Heq | _]; [contradiction |].
  unfold node_fn in *. rewrite Hfn. reflexivity.
Qed.

Lemma routing_table_code : routing_table !! py "code" = Some "code_agent"%string.
Proof. reflexivity. Qed.

Lemma routing_table_general :
  routing_table !! py "general" = Some "generic_agent"%string.
Proof. reflexivity. Qed.

Lemma routing_table_miss (d : pystr) :
  d <> py "code" -> d <> py "general" -> routing_table !! d = None.
Proof.
  intros Hc Hg. unfold routing_table.
  rewrite lookup_insert_ne by congruence.
  rewrite lookup_insert_ne by congruence.
  apply lookup_empty.
Qed.

(** A handler node runs its agent and the run ends. *)
Lemma run_code_agent (limit : nat) (st : AgentState) (s : Sys World) :
  run_from graph (S (S limit)) "code_agent" st s
  = after_node st (answer_code_question chain_invoke st (log_node "code_agent" s)).
Proof.
  rewrite (run_from_node graph (S limit) "code_agent"
             (answer_code_question chain_invoke)); [| discriminate | reflexivity].
  unfold bind.
  destruct (answer_code_question chain_invoke st (log_node "code_agent" s))
    as [[upd | e] s2]; [| reflexivity].
  change (next_node graph "code_agent" (merge st upd) s2) with (Ok END, s2).
  cbv iota beta. rewrite run_from_end. reflexivity.
Qed.

Lemma run_generic_agent (limit : nat) (st : AgentState) (s : Sys World) :
  run_from graph (S (S limit)) "generic_agent" st s
  = after_node st
      (answer_generic_question chain_invoke st (log_node "generic_agent" s)).
Proof.
  rewrite (run_from_node graph (S limit) "generic_agent"
             (answer_generic_question chain_invoke)); [| discriminate | reflexivity].
  unfold bind.
  destruct (answer_generic_question chain_invoke st (log_node "generic_agent" s))
    as [[upd | e] s2]; [| reflexivity].
  change (next_node graph "generic_agent" (merge st upd) s2) with (Ok END, s2).
  cbv iota beta. rewrite run_from_end. reflexivity.
Qed.

(** A run is the classifier followed by the lookup of its decision. *)
Lemma route_unfold (q : pystr) (s : Sys World) :
  route chain_invoke lower q s
  = match analyze_question chain_invoke lower (mkState (Some q) None None)
            (log_node "analyze" s) with
    | (Ok upd, s1) =>
        let st1 := merge (mkState (Some q) None None) upd in
        match decision_of st1 with
        | Ok token =>
            match routing_table !! token with
            | Some dst => run_from graph 24 dst st1 s1
            | None => (Raise (RoutingMiss token), s1)
            end
        | Raise e => (Raise e, s1)
        end
    | (Raise e, s1) => (Raise e, s1)
    end.
Proof.
  unfold route, invoke.
  change (entry_point graph) with (Some "analyze"%string).
  cbv iota beta. change recursion_limit with (S 24).
  rewrite (run_from_node graph 24 "analyze"
             (analyze_question chain_invoke lower)); [| discriminate | reflexivity].
  unfold bind.
  destruct (analyze_question chain_invoke lower (mkState (Some q) None None)
              (log_node "analyze" s)) as [[upd | e] s1]; [| reflexivity].
  cbv zeta. unfold next_node.
  change (branches graph !! "analyze"%string)
    with (Some (decision_of, routing_table)).
  cbv iota beta.
  destruct (decision_of (merge (mkState (Some q) None None) upd))
    as [token | e]; [| reflexivity].
  destruct (routing_table !! token) as [dst |]; reflexivity.
Qed.

(** What the classifier returns when it succeeds. *)
Lemma analyze_question_ok (st upd : AgentState) (s s1 : Sys World) :
  analyze_question chain_invoke lower st s = (Ok upd, s1) ->
  exists q d, input st = Some q /\ upd = mkState (Some q) None (Some d).
Proof.
  unfold analyze_question, bind, print, emit, get_content, get_input, ret, raise.
  destruct (retry_with_backoff _ _ _ _) as [[[r |] | e] s2]; try discriminate.
  destruct (attr_content r) as [c |]; try discriminate.
  destruct (input st) as [q |]; try discriminate.
  intros H. injection H as <- _. eauto.
Qed.

End RouterFacts.

Section RouterClaims.

Context {World : Type}.
Variable chain_invoke : template -> pystr -> World -> res RawResponse * World.
Variable lower : pystr -> pystr.

(** C9. When the remote call of the classifier (through the backoff
    executor) returns a response whose content is [text], the classifier
    returns the decision [lower (strip text)] -- the text without the
    blanks around it, lower-cased -- whatever that token is (nothing checks
    that it is one of the two expected tokens), together with the input
    question as it was; it only adds the notice of the decision to the
    trace.  Trimming removes a run of blanks at each end and nothing
    else. *)
Theorem analyze_question_decision
    (st : AgentState) (q text : pystr) (resp : RawResponse) (s s1 : Sys World) :
  input st = Some q ->
  retry_with_backoff (invoke_chain chain_invoke classify_template st)
    default_max_retries default_initial_delay
    (mkSys (world s) (trace s ++ [EvPrint NAnalyzing]))
  = (Ok (Some resp), s1) ->
  attr_content resp = Some text ->
  analyze_question chain_invoke lower st s
  = (Ok (mkState (Some q) None (Some (lower (strip text)))),
     mkSys (world s1) (trace s1 ++ [EvPrint (NDecision (lower (strip text)))]))
  /\ (exists pre post,
        text = pre ++ strip text ++ post
        /\ forallb is_space pre = true /\ forallb is_space post = true)
  /\ match strip text with [] => True | c :: _ => is_space c = false end
  /\ match last (strip text) with None => True | Some c => is_space c = false end.
Proof.
  intros Hq Hretry Hcontent.
  split; [| split; [apply strip_spec | apply strip_ends]].
  unfold analyze_question, bind, print, emit. simpl.
  rewrite Hretry. simpl. rewrite Hcontent. simpl.
  unfold get_input. rewrite Hq. reflexivity.
Qed.

(** The run after a successful classification, by the token returned. *)
Lemma route_after_classifier
    (q d : pystr) (upd : AgentState) (s s1 : Sys World) :
  analyze_question chain_invoke lower (mkState (Some q) None None)
    (log_node "analyze" s) = (Ok upd, s1) ->
  decision upd = Some d ->
  (d = py "code" ->
     route chain_invoke lower q s
     = after_node (merge (mkState (Some q) None None) upd)
         (answer_code_question chain_invoke
            (merge (mkState (Some q) None None) upd)
            (log_node "code_agent" s1))
     /\ node_events (trace (snd (route chain_invoke lower q s)))
        = node_events (trace s) ++ ["analyze"; "code_agent"]%string)
  /\ (d = py "general" ->
        route chain_invoke lower q s
        = after_node (merge (mkState (Some q) None None) upd)
            (answer_generic_question chain_invoke
               (merge (mkState (Some q) None None) upd)
               (log_node "generic_agent" s1))
        /\ node_events (trace (snd (route chain_invoke lower q s)))
           = node_events (trace s) ++ ["analyze"; "generic_agent"]%string)
  /\ (d <> py "code" -> d <> py "general" ->
        route chain_invoke lower q s = (Raise (RoutingMiss d), s1)
        /\ node_events (trace (snd (route chain_invoke lower q s)))
           = node_events (trace s) ++ ["analyze"%string]).
Proof.
  intros Han Hd.
  assert (Hs1 : node_events (trace s1)
                = node_events (trace s) ++ ["analyze"%string]).
  { pose proof (quiet_analyze_question chain_invoke lower
                  (mkState (Some q) None None) (log_node "analyze" s)) as Hq.
    rewrite Han in Hq. simpl in Hq. rewrite Hq.
    apply node_events_app. }
  assert (Hdec : decision_of (merge (mkState (Some q) None None) upd) = Ok d).
  { unfold decision_of, merge. simpl. rewrite Hd. reflexivity. }
  pose proof (route_unfold chain_invoke lower q s) as Hroute.
  rewrite Han in Hroute. cbv zeta in Hroute. rewrite Hdec in Hroute.
  split; [| split].
  - intros ->. rewrite routing_table_code in Hroute.
    rewrite run_code_agent in Hroute. rewrite Hroute. split; [reflexivity |].
    pose proof (quiet_answer_code_question chain_invoke
                  (merge (mkState (Some q) None None) upd)
                  (log_node "code_agent" s1)) as Hq.
    destruct (answer_code_question chain_invoke _ _) as [[u | e] s2];
      simpl in *; rewrite Hq, node_events_app, Hs1, <- app_assoc; reflexivity.
  - intros ->. rewrite routing_table_general in Hroute.
    rewrite run_generic_agent in Hroute. rewrite Hroute. split; [reflexivity |].
    pose proof (quiet_answer_generic_question chain_invoke
                  (merge (mkState (Some q) None None) upd)
                  (log_node "generic_agent" s1)) as Hq.
    destruct (answer_generic_question chain_invoke _ _) as [[u | e] s2];
      simpl in *; rewrite Hq, node_events_app, Hs1, <- app_assoc; reflexivity.
  - intros Hc Hg. rewrite (routing_table_miss d Hc Hg) in Hroute.
    rewrite Hroute. split; [reflexivity | exact Hs1].
Qed.

(** C1. Let the classifier return the decision token [d] for the question
    [q].  If [d] is [code], the run continues with the code handler and
    ends with its outcome; if [d] is [general], with the general handler.
    For any other token the run raises the routing-miss failure carrying
    [d], in the state the classifier left: no handler runs. *)
Theorem router_dispatch
    (q d : pystr) (upd : AgentState) (s s1 : Sys World) :
  analyze_question chain_invoke lower (mkState (Some q) None None)
    (log_node "analyze" s) = (Ok upd, s1) ->
  decision upd = Some d ->
  (d = py "code" ->
     route chain_invoke lower q s
     = after_node (merge (mkState (Some q) None None) upd)
         (answer_code_question chain_invoke
            (merge (mkState (Some q) None None) upd)
            (log_node "code_agent" s1))
     /\ node_events (trace (snd (route chain_invoke lower q s)))
        = node_events (trace s) ++ ["analyze"; "code_agent"]%string)
  /\ (d = py "general" ->
        route chain_invoke lower q s
        = after_node (merge (mkState (Some q) None None) upd)
            (answer_generic_question chain_invoke
               (merge (mkState (Some q) None None) upd)
               (log_node "generic_agent" s1))
        /\ node_events (trace (snd (route chain_invoke lower q s)))
           = node_events (trace s) ++ ["analyze"; "generic_agent"]%string)
  /\ (d <> py "code" -> d <> py "general" ->
        route chain_invoke lower q s = (Raise (RoutingMiss d), s1)
        /\ node_events (trace (snd (route chain_invoke lower q s)))
           = node_events (trace s) ++ ["analyze"%string]).
Proof. apply route_after_classifier. Qed.


End RouterClaims.

Lemma analyze_question_decision_witness :
  analyze_question scripted_chain ascii_lower
    (mkState (Some (py "How do I loop?")) None None)
    (mkSys [Ok (message (py " Code ")); Ok (message for_loop_text)] [])
  = (Ok (mkState (Some (py "How do I loop?")) None (Some (py "code"))),
     mkSys [Ok (message for_loop_text)]
           [EvPrint NAnalyzing; EvPrint (NDecision (py "code"))]).
Proof.
  apply (analyze_question_decision scripted_chain ascii_lower
           (mkState (Some (py "How do I loop?")) None None)
           (py "How do I loop?") (py " Code ") (message (py " Code "))
           (mkSys [Ok (message (py " Code ")); Ok (message for_loop_text)] [])
           (mkSys [Ok (message for_loop_text)] [EvPrint NAnalyzing])).
  - reflexivity.
  - reflexivity.
  - reflexivity.
Defined.

Lemma router_dispatch_witness :
  route scripted_chain ascii_lower (py "Hm?")
    (mkSys [Ok (message (py "Maybe code")); Ok (message (py "MAIN_ANSWER: X"))] [])
  = (Raise (RoutingMiss (py "maybe code")),
     mkSys [Ok (message (py "MAIN_ANSWER: X"))]
       [EvNode "analyze"; EvPrint NAnalyzing;
        EvPrint (NDecision (py "maybe code"))]).
Proof.
  refine (proj1 (proj2 (proj2
            (router_dispatch scripted_chain ascii_lower
               (py "Hm?") (py "maybe code")
               (mkState (Some (py "Hm?")) None (Some (py "maybe code")))
               (mkSys [Ok (message (py "Maybe code"));
                       Ok (message (py "MAIN_ANSWER: X"))] [])
               (mkSys [Ok (message (py "MAIN_ANSWER: X"))]
                  [EvNode "analyze"; EvPrint NAnalyzing;
                   EvPrint (NDecision (py "maybe code"))])
               _ _)) _ _)).
  - reflexivity.
  - reflexivity.
  - discriminate.
  - discriminate.
Defined.


(** * Further properties *)

(** ** The backoff executor, for any number of attempts *)

Section BackoffMore.

Context {World A : Type}.
Variable func : World -> res A * World.
Variables max_retries initial_delay : Z.


Lemma sumZ_app (l1 l2 : list Z) : sumZ (l1 ++ l2) = sumZ l1 + sumZ l2.
Proof. induction l1 as [|x l IH]; simpl; [reflexivity | rewrite IH; lia]. Qed.

Lemma sumZ_delays (a : Z) (k : nat) :
  0 <= a ->
  sumZ (delays initial_delay a k) = initial_delay * 2 ^ a * (2 ^ Z.of_nat k - 1).
Proof.
  revert a. induction k as [|k IH]; intros a Ha.
  - simpl. lia.
  - cbn [delays sumZ fold_right]. fold (sumZ (delays initial_delay (a + 1) k)).
    rewrite IH by lia.
    rewrite Z.pow_add_r by lia.
    replace (Z.of_nat (S k)) with (Z.of_nat k + 1) by lia.
    rewrite Z.pow_add_r by lia. change (2 ^ 1) with 2. ring.
Qed.

(** The sleeps of the loop are an initial segment of the schedule; when
    the loop ends at the last permitted attempt, the segment is shorter than
    the number of iterations. *)
Lemma retry_loop_sleeps (n : nat) :
  forall (attempt : Z) (s : Sys World),
  exists k : nat,
    sleeps (trace (snd (retry_loop func max_retries initial_delay n attempt s)))
    = sleeps (trace s) ++ delays initial_delay attempt k
    /\ (k <= n)%nat
    /\ (attempt + Z.of_nat n = max_retries -> k = O \/ (k < n)%nat).
Proof.
  induction n as [|n IH]; intros attempt s.
  - exists O. simpl. rewrite app_nil_r. auto.
  - cbn [retry_loop]. unfold call.
    destruct (func (world s)) as [[v | e] w1].
    + exists O. simpl. rewrite app_nil_r. split; [reflexivity | split; [lia | auto]].
    + assert (Hstop : forall (r : res (option A)) (nts : list event),
                 sleeps nts = [] ->
                 exists k : nat,
                   sleeps (trace (snd (r, mkSys w1 (trace s ++ nts))))
                   = sleeps (trace s) ++ delays initial_delay attempt k
                   /\ (k <= S n)%nat
                   /\ (attempt + Z.of_nat (S n) = max_retries ->
                       k = O \/ (k < S n)%nat)).
      { intros r nts Hn. exists O. simpl. rewrite sleeps_app, Hn.
        split; [reflexivity | split; [lia | auto]]. }
      assert (Hplain : forall r : res (option A),
                 exists k : nat,
                   sleeps (trace (snd (r, mkSys w1 (trace s))))
                   = sleeps (trace s) ++ delays initial_delay attempt k
                   /\ (k <= S n)%nat
                   /\ (attempt + Z.of_nat (S n) = max_retries ->
                       k = O \/ (k < S n)%nat)).
      { intros r. destruct (Hstop r [] eq_refl) as [k Hk].
        exists k. simpl in *. rewrite app_nil_r in Hk. exact Hk. }
      destruct e; try (apply (Hstop _ [_]); reflexivity); try apply Hplain.
      destruct (attempt =? max_retries - 1) eqn:Hlast; [apply Hplain |].
      unfold bind, print, time_sleep, emit. simpl.
      destruct (initial_delay * 2 ^ attempt <? 0) eqn:Hneg.
      * apply (Hstop (Raise ValueError) [_]). reflexivity.
      * simpl.
        destruct (IH (attempt + 1)
                    (mkSys w1 ((trace s ++ [EvPrint (NOverloaded (initial_delay * 2 ^ attempt))])
                               ++ [EvSleep (initial_delay * 2 ^ attempt)])))
          as (k & Hk & Hle & Hlt).
        exists (S k). split; [| split].
        -- rewrite Hk. simpl. rewrite !sleeps_app. simpl.
           rewrite app_nil_r, <- app_assoc. reflexivity.
        -- lia.
        -- intros Hsum. apply Z.eqb_neq in Hlast. right.
           destruct n as [|n']; [lia |].
           destruct Hlt as [-> | Hlt]; lia.
Qed.

(** The remote world at the end of the loop is the initial one advanced by
    the calls made, at most one per iteration. *)
Lemma retry_loop_calls (n : nat) :
  forall (attempt : Z) (s : Sys World),
  exists j : nat,
    world (snd (retry_loop func max_retries initial_delay n attempt s))
    = calls func j (world s)
    /\ (j <= n)%nat /\ ((1 <= n)%nat -> (1 <= j)%nat).
Proof.
  induction n as [|n IH]; intros attempt s.
  - exists O. simpl. split; [reflexivity | lia].
  - cbn [retry_loop]. unfold call.
    assert (Hone : forall (r : res (option A)) (w1 : World) (tr : list event),
               snd (func (world s)) = w1 ->
               exists j : nat,
                 world (snd (r, mkSys w1 tr)) = calls func j (world s)
                 /\ (j <= S n)%nat /\ ((1 <= S n)%nat -> (1 <= j)%nat)).
    { intros r w1 tr Hw. exists 1%nat. simpl. rewrite Hw. split; [reflexivity | lia]. }
    destruct (func (world s)) as [[v | e] w1] eqn:Hf; [apply Hone; reflexivity |].
    destruct e; try (apply Hone; reflexivity).
    destruct (attempt =? max_retries - 1); [apply Hone; reflexivity |].
    unfold bind, print, time_sleep, emit. simpl.
    destruct (initial_delay * 2 ^ attempt <? 0); [apply Hone; reflexivity |].
    simpl.
    destruct (IH (attempt + 1)
                (mkSys w1 ((trace s ++ [EvPrint (NOverloaded (initial_delay * 2 ^ attempt))])
                           ++ [EvSleep (initial_delay * 2 ^ attempt)])))
      as (j & Hj & Hle & _).
    exists (S j). split; [| lia].
    rewrite Hj. cbn [calls world]. rewrite Hf. reflexivity.
Qed.

(** With at least one permitted attempt, a run that returns hands back
    what the last call of [func] returned. *)
Lemma retry_loop_result (n : nat) :
  forall (attempt : Z) (s s' : Sys World) (r : res (option A)),
    (1 <= n)%nat ->
    attempt + Z.of_nat n = max_retries ->
    retry_loop func max_retries initial_delay n attempt s = (r, s') ->
    match r with
    | Ok None => False
    | Ok (Some v) =>
        exists j : nat,
          (j < n)%nat /\ func (calls func j (world s)) = (Ok v, world s')
    | Raise _ => True
    end.
Proof.
  induction n as [|n IH]; intros attempt s s' r Hn Hsum; [lia |].
  cbn [retry_loop]. unfold call.
  destruct (func (world s)) as [[v | e] w1] eqn:Hf.
  - intros H. injection H as <- <-. exists O. split; [lia | exact Hf].
  - assert (Hraise : forall (e' : exn) (s1 : Sys World),
               (Raise e', s1) = (r, s') ->
               match r with
               | Ok None => False
               | Ok (Some v) =>
                   exists j : nat,
                     (j < S n)%nat
                     /\ func (calls func j (world s)) = (Ok v, world s')
               | Raise _ => True
               end).
    { intros e' s1 H. injection H as <- _. exact I. }
    destruct e; try (apply Hraise).
    destruct (attempt =? max_retries - 1) eqn:Hlast; [apply Hraise |].
    apply Z.eqb_neq in Hlast.
    unfold bind, print, time_sleep, emit. cbn [world trace].
    destruct (initial_delay * 2 ^ attempt <? 0); [apply Hraise |].
    cbn [world trace]. intros Hrec.
    assert (Hn' : (1 <= n)%nat) by lia.
    pose proof (IH (attempt + 1) _ s' r Hn' ltac:(lia) Hrec) as Hres.
    destruct r as [[v |] | e']; [| exact Hres | exact I].
    destruct Hres as (j & Hj & Hcall). exists (S j). split; [lia |].
    cbn [calls world] in *. rewrite Hf. exact Hcall.
Qed.

End BackoffMore.

Section BackoffExtras.

Context {World A : Type}.
Variable func : World -> res A * World.
Variables max_retries initial_delay : Z.




(** X3. With at least one permitted attempt the loop never runs out
    without an outcome: the executor raises, or returns exactly the value
    the operation returned on its last call (so a [None] result can only
    be the operation's own). *)
Theorem backoff_returns_operation_result
    (s s' : Sys World) (r : res (option A)) :
  1 <= max_retries ->
  retry_with_backoff func max_retries initial_delay s = (r, s') ->
  match r with
  | Ok None => False
  | Ok (Some v) =>
      exists j : nat,
        Z.of_nat j < max_retries
        /\ func (calls func j (world s)) = (Ok v, world s')
  | Raise _ => True
  end.
Proof.
  intros Hm Hrun. unfold retry_with_backoff in Hrun.
  pose proof (retry_loop_result func max_retries initial_delay
                (Z.to_nat max_retries) 0 s s' r ltac:(lia) ltac:(lia) Hrun) as H.
  destruct r as [[v |] | e]; [| exact H | exact I].
  destruct H as (j & Hj & Hcall). exists j. split; [lia | exact Hcall].
Qed.

(** X4. Whatever the operation does, the delays slept during a run are an
    initial segment of the schedule [initial_delay * 2^0],
    [initial_delay * 2^1], ... (no jitter, no other delay), and there are
    fewer of them than permitted attempts. *)
Theorem backoff_delay_schedule (s : Sys World) :
  exists k : nat,
    sleeps (trace (snd (retry_with_backoff func max_retries initial_delay s)))
    = sleeps (trace s) ++ delays initial_delay 0 k
    /\ (k = O \/ Z.of_nat k < max_retries).
Proof.
  unfold retry_with_backoff.
  destruct (retry_loop_sleeps func max_retries initial_delay
              (Z.to_nat max_retries) 0 s) as (k & Hk & Hle & Hlt).
  exists k. split; [exact Hk |].
  destruct (Z.le_gt_cases max_retries 0) as [Hm | Hm]; [left; lia |].
  destruct Hlt as [-> | Hlt]; [lia | left; reflexivity | right; lia].
Qed.

(** X5. With a non-negative initial delay, one run sleeps at most
    [initial_delay * (2^(max_retries - 1) - 1)] in total: 3 for the
    defaults. *)
Theorem backoff_total_sleep (s : Sys World) :
  1 <= max_retries ->
  0 <= initial_delay ->
  sumZ (sleeps (trace (snd (retry_with_backoff func max_retries initial_delay s))))
  <= sumZ (sleeps (trace s)) + initial_delay * (2 ^ (max_retries - 1) - 1).
Proof.
  intros Hm Hd. unfold retry_with_backoff.
  destruct (retry_loop_sleeps func max_retries initial_delay
              (Z.to_nat max_retries) 0 s) as (k & Hk & Hle & Hlt).
  rewrite Hk, sumZ_app, sumZ_delays by lia.
  assert (Hk' : Z.of_nat k <= max_retries - 1).
  { destruct Hlt as [-> | Hlt]; lia. }
  assert (Hpow : 2 ^ Z.of_nat k <= 2 ^ (max_retries - 1)).
  { apply Z.pow_le_mono_r; lia. }
  change (2 ^ 0) with 1. nia.
Qed.

(** X6. The operation is invoked at most [max_retries] times, and at least
    once when [max_retries >= 1]: the remote world at the end is the
    initial one advanced by that many calls. *)
Theorem backoff_attempts_bounded (s : Sys World) :
  exists j : nat,
    world (snd (retry_with_backoff func max_retries initial_delay s))
    = calls func j (world s)
    /\ Z.of_nat j <= Z.max 0 max_retries
    /\ (1 <= max_retries -> (1 <= j)%nat).
Proof.
  unfold retry_with_backoff.
  destruct (retry_loop_calls func max_retries initial_delay
              (Z.to_nat max_retries) 0 s) as (j & Hj & Hle & Hge).
  exists j. split; [exact Hj | split; [lia |]].
  intros Hm. apply Hge. lia.
Qed.

(** X7. With a negative initial delay (one [time.sleep] can convert: at
    least [- max_sleep]), an overloaded first attempt that is not the last
    ends the run with the [ValueError] of [time.sleep]: the notice is
    printed, nothing is slept and the operation is not retried. *)
Theorem backoff_negative_delay (w w' : World) (tr : list event) :
  - max_sleep <= initial_delay < 0 ->
  2 <= max_retries ->
  func w = (Raise OverloadedError, w') ->
  retry_with_backoff func max_retries initial_delay (mkSys w tr)
  = (Raise ValueError,
     mkSys w' (tr ++ [EvPrint (NOverloaded initial_delay)])).
Proof.
  intros Hd Hm Hf. unfold retry_with_backoff.
  destruct (Z.to_nat max_retries) as [|n] eqn:Hn; [lia |].
  assert (H1 : (0 =? max_retries - 1) = false) by (apply Z.eqb_neq; lia).
  assert (H2 : (initial_delay * 2 ^ 0 <? 0) = true) by (apply Z.ltb_lt; lia).
  cbn [retry_loop]. unfold call. cbn [world trace]. rewrite Hf, H1.
  unfold bind, print, time_sleep, emit. cbn [world trace]. rewrite H2.
  unfold raise. rewrite Z.mul_1_r. reflexivity.
Qed.

End BackoffExtras.



Lemma backoff_returns_operation_result_witness :
  exists j : nat,
    Z.of_nat j < 2
    /\ scripted (Raise ValueError)
         (calls (scripted (Raise ValueError)) j [Raise OverloadedError; Ok 9%nat])
       = (Ok 9%nat, []).
Proof.
  apply (backoff_returns_operation_result (scripted (Raise ValueError)) 2 1
           (mkSys [Raise OverloadedError; Ok 9%nat] [])
           (mkSys [] [EvPrint (NOverloaded 1); EvSleep 1])
           (Ok (Some 9%nat))).
  - lia.
  - reflexivity.
Defined.

Lemma backoff_total_sleep_witness :
  sumZ (sleeps (trace (snd (retry_with_backoff (scripted (Raise ValueError)) 3 1
                              (mkSys [Raise OverloadedError; Raise OverloadedError;
                                      Ok 9%nat] [])))))
  <= sumZ (sleeps []) + 1 * (2 ^ (3 - 1) - 1).
Proof.
  apply (backoff_total_sleep (scripted (Raise ValueError)) 3 1
           (mkSys [Raise OverloadedError; Raise OverloadedError; Ok 9%nat] [])).
  - lia.
  - lia.
Defined.

Lemma backoff_negative_delay_witness :
  retry_with_backoff (scripted (Raise ValueError)) 3 (-1)
    (mkSys [Raise OverloadedError; Ok 9%nat] [])
  = (Raise ValueError, mkSys [Ok 9%nat] [EvPrint (NOverloaded (-1))]).
Proof.
  apply (backoff_negative_delay (scripted (Raise ValueError)) 3 (-1)
           [Raise OverloadedError; Ok 9%nat] [Ok 9%nat] []).
  - unfold max_sleep. lia.
  - lia.
  - reflexivity.
Defined.

(** ** The agents and one run of the workflow *)

Section AgentFacts.

Context {World : Type}.
Variable chain_invoke : template -> pystr -> World -> res RawResponse * World.
Variable lower : pystr -> pystr.

Lemma calls_ext {A : Type} (f g : World -> res A * World) (j : nat) :
  (forall w, f w = g w) -> forall w, calls f j w = calls g j w.
Proof.
  intros Hfg. induction j as [|j IH]; intros w; [reflexivity |].
  cbn [calls]. rewrite Hfg. apply IH.
Qed.

Lemma invoke_chain_some (t : template) (st : AgentState) (q : pystr) :
  input st = Some q -> forall w, invoke_chain chain_invoke t st w = chain_invoke t q w.
Proof. intros Hq w. unfold invoke_chain. rewrite Hq. reflexivity. Qed.

(** The remote world and the sleeps at the end of an agent are those at the
    end of its call of the backoff executor. *)
Lemma analyze_question_after (st : AgentState) (s : Sys World) :
  let out := retry_with_backoff (invoke_chain chain_invoke classify_template st)
               default_max_retries default_initial_delay
               (mkSys (world s) (trace s ++ [EvPrint NAnalyzing])) in
  world (snd (analyze_question chain_invoke lower st s)) = world (snd out)
  /\ sleeps (trace (snd (analyze_question chain_invoke lower st s)))
     = sleeps (trace (snd out)).
Proof.
  unfold analyze_question, bind, print, emit. cbn [world trace].
  destruct (retry_with_backoff _ _ _ _) as [[[r |] | e] s1]; cbn;
    try (split; reflexivity).
  unfold get_content. destruct (attr_content r) as [c |]; cbn;
    [| split; reflexivity].
  unfold get_input. destruct (input st) as [q |]; cbn;
    rewrite sleeps_app; cbn; rewrite app_nil_r; split; reflexivity.
Qed.

Lemma answer_code_question_after (st : AgentState) (s : Sys World) :
  snd (answer_code_question chain_invoke st s)
  = snd (retry_with_backoff (invoke_chain chain_invoke code_template st)
           default_max_retries default_initial_delay
           (mkSys (world s) (trace s ++ [EvPrint NCodeAgent]))).
Proof.
  unfold answer_code_question, bind, print, emit. cbn [world trace].
  destruct (retry_with_backoff _ _ _ _) as [[r | e] s1]; reflexivity.
Qed.

Lemma answer_generic_question_after (st : AgentState) (s : Sys World) :
  snd (answer_generic_question chain_invoke st s)
  = snd (retry_with_backoff (invoke_chain chain_invoke generic_template st)
           default_max_retries default_initial_delay
           (mkSys (world s) (trace s ++ [EvPrint NGenericAgent]))).
Proof.
  unfold answer_generic_question, bind, print, emit. cbn [world trace].
  destruct (retry_with_backoff _ _ _ _) as [[r | e] s1]; reflexivity.
Qed.

(** One call of the executor with the defaults, on a state that holds the
    question [q]: one to three remote calls, at most 3 slept. *)
Lemma default_retry_effort (t : template) (st : AgentState) (q : pystr)
    (w : World) (tr : list event) (n : notice) :
  input st = Some q ->
  let out := retry_with_backoff (invoke_chain chain_invoke t st)
               default_max_retries default_initial_delay
               (mkSys w (tr ++ [EvPrint n])) in
  exists j : nat,
    (1 <= j <= 3)%nat
    /\ world (snd out) = calls (chain_invoke t q) j w
    /\ sumZ (sleeps (trace (snd out))) <= sumZ (sleeps tr) + 3.
Proof.
  intros Hq out. subst out. unfold retry_with_backoff.
  change (Z.to_nat default_max_retries) with 3%nat.
  destruct (retry_loop_calls (invoke_chain chain_invoke t st)
              default_max_retries default_initial_delay 3 0
              (mkSys w (tr ++ [EvPrint n]))) as (j & Hj & Hle & Hge).
  destruct (retry_loop_sleeps (invoke_chain chain_invoke t st)
              default_max_retries default_initial_delay 3 0
              (mkSys w (tr ++ [EvPrint n]))) as (k & Hk & Hkle & Hklt).
  exists j. split; [lia |]. split.
  - rewrite Hj. apply calls_ext. apply invoke_chain_some. exact Hq.
  - rewrite Hk. cbn [trace]. rewrite sleeps_app, !sumZ_app.
    change (sumZ (sleeps [EvPrint n])) with 0.
    rewrite sumZ_delays by lia.
    assert (Hk2 : (k <= 2)%nat).
    { destruct (Hklt eq_refl) as [-> | Hlt]; lia. }
    unfold default_initial_delay. change (2 ^ 0) with 1.
    assert (Hpow : 2 ^ Z.of_nat k <= 2 ^ 2) by (apply Z.pow_le_mono_r; lia).
    change (2 ^ 2) with 4 in Hpow. lia.
Qed.

Lemma analyze_question_effort (st : AgentState) (q : pystr) (s : Sys World) :
  input st = Some q ->
  exists j : nat,
    (1 <= j <= 3)%nat
    /\ world (snd (analyze_question chain_invoke lower st s))
       = calls (chain_invoke classify_template q) j (world s)
    /\ sumZ (sleeps (trace (snd (analyze_question chain_invoke lower st s))))
       <= sumZ (sleeps (trace s)) + 3.
Proof.
  intros Hq. destruct (analyze_question_after st s) as [Hw Hs].
  rewrite Hw, Hs.
  apply (default_retry_effort classify_template st q (world s) (trace s)
           NAnalyzing Hq).
Qed.

Lemma answer_code_question_effort (st : AgentState) (q : pystr) (s : Sys World) :
  input st = Some q ->
  exists j : nat,
    (1 <= j <= 3)%nat
    /\ world (snd (answer_code_question chain_invoke st s))
       = calls (chain_invoke code_template q) j (world s)
    /\ sumZ (sleeps (trace (snd (answer_code_question chain_invoke st s))))
       <= sumZ (sleeps (trace s)) + 3.
Proof.
  intros Hq. rewrite answer_code_question_after.
  apply (default_retry_effort code_template st q (world s) (trace s)
           NCodeAgent Hq).
Qed.

Lemma answer_generic_question_effort (st : AgentState) (q : pystr) (s : Sys World) :
  input st = Some q ->
  exists j : nat,
    (1 <= j <= 3)%nat
    /\ world (snd (answer_generic_question chain_invoke st s))
       = calls (chain_invoke generic_template q) j (world s)
    /\ sumZ (sleeps (trace (snd (answer_generic_question chain_invoke st s))))
       <= sumZ (sleeps (trace s)) + 3.
Proof.
  intros Hq. rewrite answer_generic_question_after.
  apply (default_retry_effort generic_template st q (world s) (trace s)
           NGenericAgent Hq).
Qed.

Lemma sleeps_log_node (name : string) (s : Sys World) :
  sleeps (trace (log_node name s)) = sleeps (trace s).
Proof. unfold log_node. cbn. rewrite sleeps_app. cbn. apply app_nil_r. Qed.

Lemma snd_after_node (st : AgentState) (r : res AgentState * Sys World) :
  snd (after_node st r) = snd r.
Proof. destruct r as [[upd | e] s]; reflexivity. Qed.

(** The four ways a run can go. *)
Lemma route_cases (q : pystr) (s : Sys World) :
  let st0 := mkState (Some q) None None in
  let an := analyze_question chain_invoke lower st0 (log_node "analyze" s) in
  (exists e, fst an = Raise e
             /\ route chain_invoke lower q s = (Raise e, snd an))
  \/ (exists d, fst an = Ok (mkState (Some q) None (Some d))
                /\ d <> py "code" /\ d <> py "general"
                /\ route chain_invoke lower q s = (Raise (RoutingMiss d), snd an))
  \/ (fst an = Ok (mkState (Some q) None (Some (py "code")))
      /\ route chain_invoke lower q s
         = after_node (mkState (Some q) None (Some (py "code")))
             (answer_code_question chain_invoke
                (mkState (Some q) None (Some (py "code")))
                (log_node "code_agent" (snd an))))
  \/ (fst an = Ok (mkState (Some q) None (Some (py "general")))
      /\ route chain_invoke lower q s
         = after_node (mkState (Some q) None (Some (py "general")))
             (answer_generic_question chain_invoke
                (mkState (Some q) None (Some (py "general")))
                (log_node "generic_agent" (snd an)))).
Proof.
  intros st0 an. subst st0 an.
  destruct (analyze_question chain_invoke lower (mkState (Some q) None None)
              (log_node "analyze" s)) as [[upd | e] s1] eqn:Han.
  - destruct (analyze_question_ok _ _ _ _ _ _ Han) as (q' & d & Hq' & ->).
    injection Hq' as <-.
    pose proof (route_unfold chain_invoke lower q s) as Hroute.
    rewrite Han in Hroute. cbv zeta in Hroute.
    change (merge (mkState (Some q) None None) (mkState (Some q) None (Some d)))
      with (mkState (Some q) None (Some d)) in Hroute.
    change (decision_of (mkState (Some q) None (Some d))) with (Ok d) in Hroute.
    cbv iota beta in Hroute.
    destruct (decide (d = py "code")) as [-> | Hc].
    + right. right. left. split; [reflexivity |].
      rewrite routing_table_code, run_code_agent in Hroute. exact Hroute.
    + destruct (decide (d = py "general")) as [-> | Hg].
      * right. right. right. split; [reflexivity |].
        rewrite routing_table_general, run_generic_agent in Hroute. exact Hroute.
      * right. left. exists d. rewrite (routing_table_miss d Hc Hg) in Hroute.
        repeat split; assumption.
  - left. exists e. split; [reflexivity |].
    rewrite route_unfold, Han. reflexivity.
Qed.

Lemma retry_missing_input (t : template) (o : option (option RawResponse))
    (d : option pystr) (s : Sys World) :
  retry_with_backoff (invoke_chain chain_invoke t (mkState None o d))
    default_max_retries default_initial_delay s
  = (Raise (KeyError (py "input")),
     mkSys (world s) (trace s ++ [EvPrint (NError (KeyError (py "input")))])).
Proof.
  unfold retry_with_backoff. change (Z.to_nat default_max_retries) with 3%nat.
  destruct s as [w tr].
  apply (retry_loop_fatal (invoke_chain chain_invoke t (mkState None o d)));
    [discriminate | reflexivity].
Qed.

(** What the executor returns to an agent is what the remote model returned
    to the last call, made with the agent's template and the question of
    the state. *)
Lemma default_retry_remote (t : template) (st : AgentState)
    (s s' : Sys World) (resp : option RawResponse) :
  retry_with_backoff (invoke_chain chain_invoke t st)
    default_max_retries default_initial_delay s = (Ok resp, s') ->
  exists (q : pystr) (r : RawResponse) (j : nat),
    input st = Some q /\ resp = Some r /\ (j < 3)%nat
    /\ chain_invoke t q (calls (chain_invoke t q) j (world s)) = (Ok r, world s').
Proof.
  intros Hrun. unfold retry_with_backoff in Hrun.
  change (Z.to_nat default_max_retries) with 3%nat in Hrun.
  pose proof (retry_loop_result (invoke_chain chain_invoke t st)
                default_max_retries default_initial_delay 3 0 s s' (Ok resp)
                ltac:(lia) eq_refl Hrun) as H.
  destruct resp as [r |]; [| contradiction].
  destruct H as (j & Hj & Hcall).
  destruct (input st) as [q |] eqn:Hq.
  - exists q, r, j. repeat split; try assumption.
    rewrite <- (calls_ext _ _ j (invoke_chain_some t st q Hq)).
    rewrite <- (invoke_chain_some t st q Hq). exact Hcall.
  - unfold invoke_chain at 1 in Hcall. rewrite Hq in Hcall. discriminate.
Qed.

Lemma answer_code_question_remote (st upd : AgentState) (s s' : Sys World) :
  answer_code_question chain_invoke st s = (Ok upd, s') ->
  exists (q : pystr) (r : RawResponse) (j : nat),
    input st = Some q /\ (j < 3)%nat
    /\ chain_invoke code_template q
         (calls (chain_invoke code_template q) j (world s)) = (Ok r, world s')
    /\ upd = mkState None (Some (Some r)) None.
Proof.
  unfold answer_code_question, bind, print, emit. cbn [world trace].
  destruct (retry_with_backoff _ _ _ _) as [[resp | e] s2] eqn:Hrun;
    [| discriminate].
  destruct (default_retry_remote _ _ _ _ _ Hrun) as (q & r & j & Hq & -> & Hj & Hc).
  cbn. intros H. injection H as <- <-.
  exists q, r, j. repeat split; assumption.
Qed.

Lemma answer_generic_question_remote (st upd : AgentState) (s s' : Sys World) :
  answer_generic_question chain_invoke st s = (Ok upd, s') ->
  exists (q : pystr) (r : RawResponse) (j : nat),
    input st = Some q /\ (j < 3)%nat
    /\ chain_invoke generic_template q
         (calls (chain_invoke generic_template q) j (world s)) = (Ok r, world s')
    /\ upd = mkState None (Some (Some r)) None.
Proof.
  unfold answer_generic_question, bind, print, emit. cbn [world trace].
  destruct (retry_with_backoff _ _ _ _) as [[resp | e] s2] eqn:Hrun;
    [| discriminate].
  destruct (default_retry_remote _ _ _ _ _ Hrun) as (q & r & j & Hq & -> & Hj & Hc).
  cbn. intros H. injection H as <- <-.
  exists q, r, j. repeat split; assumption.
Qed.

End AgentFacts.

Section AgentExtras.

Context {World : Type}.
Variable chain_invoke : template -> pystr -> World -> res RawResponse * World.
Variable lower : pystr -> pystr.

(** X8. On a state without the key [input], each of the three agents
    raises [KeyError] for that key without calling the remote model: the
    remote world is untouched, and the trace gains the agent's opening
    notice and the error notice of the executor. *)
Theorem agents_missing_input
    (o : option (option RawResponse)) (d : option pystr) (s : Sys World) :
  analyze_question chain_invoke lower (mkState None o d) s
  = (Raise (KeyError (py "input")),
     mkSys (world s)
       (trace s ++ [EvPrint NAnalyzing; EvPrint (NError (KeyError (py "input")))]))
  /\ answer_code_question chain_invoke (mkState None o d) s
     = (Raise (KeyError (py "input")),
        mkSys (world s)
          (trace s ++ [EvPrint NCodeAgent; EvPrint (NError (KeyError (py "input")))]))
  /\ answer_generic_question chain_invoke (mkState None o d) s
     = (Raise (KeyError (py "input")),
        mkSys (world s)
          (trace s ++ [EvPrint NGenericAgent;
                       EvPrint (NError (KeyError (py "input")))])).
Proof.
  repeat split;
    unfold analyze_question, answer_code_question, answer_generic_question,
           bind, print, emit; cbn [world trace];
    rewrite retry_missing_input; cbn [world trace];
    rewrite <- app_assoc; reflexivity.
Qed.

(** X9. A handler that returns has set the key [output], and no other key,
    to the response the remote model returned to its last call -- a call
    made with the handler's own template and the question of the state,
    after at most two failed ones: never to [None], never to anything
    else. *)
Theorem handlers_return_a_response (st : AgentState) (s : Sys World) :
  match answer_code_question chain_invoke st s with
  | (Ok upd, s') =>
      exists (q : pystr) (r : RawResponse) (j : nat),
        input st = Some q /\ (j < 3)%nat
        /\ chain_invoke code_template q
             (calls (chain_invoke code_template q) j (world s)) = (Ok r, world s')
        /\ upd = mkState None (Some (Some r)) None
  | (Raise _, _) => True
  end
  /\ match answer_generic_question chain_invoke st s with
     | (Ok upd, s') =>
         exists (q : pystr) (r : RawResponse) (j : nat),
           input st = Some q /\ (j < 3)%nat
           /\ chain_invoke generic_template q
                (calls (chain_invoke generic_template q) j (world s))
              = (Ok r, world s')
           /\ upd = mkState None (Some (Some r)) None
     | (Raise _, _) => True
     end.
Proof.
  split.
  - destruct (answer_code_question chain_invoke st s) as [[upd | e] s1] eqn:H;
      [| exact I].
    apply (answer_code_question_remote chain_invoke st upd s s1 H).
  - destruct (answer_generic_question chain_invoke st s) as [[upd | e] s1] eqn:H;
      [| exact I].
    apply (answer_generic_question_remote chain_invoke st upd s s1 H).
Qed.

(** X10. On a state that holds the question [q], each agent calls the
    remote model between one and three times, every time with its own
    prompt template and [q], and sleeps at most 3 in total. *)
Theorem agent_effort_bounded (st : AgentState) (q : pystr) (s : Sys World) :
  input st = Some q ->
  (exists j : nat,
      (1 <= j <= 3)%nat
      /\ world (snd (analyze_question chain_invoke lower st s))
         = calls (chain_invoke classify_template q) j (world s)
      /\ sumZ (sleeps (trace (snd (analyze_question chain_invoke lower st s))))
         <= sumZ (sleeps (trace s)) + 3)
  /\ (exists j : nat,
        (1 <= j <= 3)%nat
        /\ world (snd (answer_code_question chain_invoke st s))
           = calls (chain_invoke code_template q) j (world s)
        /\ sumZ (sleeps (trace (snd (answer_code_question chain_invoke st s))))
           <= sumZ (sleeps (trace s)) + 3)
  /\ (exists j : nat,
        (1 <= j <= 3)%nat
        /\ world (snd (answer_generic_question chain_invoke st s))
           = calls (chain_invoke generic_template q) j (world s)
        /\ sumZ (sleeps (trace (snd (answer_generic_question chain_invoke st s))))
           <= sumZ (sleeps (trace s)) + 3).
Proof.
  intros Hq. split; [| split].
  - apply analyze_question_effort. exact Hq.
  - apply answer_code_question_effort. exact Hq.
  - apply answer_generic_question_effort. exact Hq.
Qed.

End AgentExtras.

Lemma agent_effort_bounded_witness :
  exists j : nat,
    (1 <= j <= 3)%nat
    /\ world (snd (analyze_question scripted_chain ascii_lower
                     (mkState (Some (py "Hm?")) None None)
                     (mkSys [Raise OverloadedError; Ok (message (py "code"))] [])))
       = calls (scripted_chain classify_template (py "Hm?")) j
           [Raise OverloadedError; Ok (message (py "code"))]
    /\ sumZ (sleeps (trace (snd (analyze_question scripted_chain ascii_lower
                                   (mkState (Some (py "Hm?")) None None)
                                   (mkSys [Raise OverloadedError;
                                           Ok (message (py "code"))] [])))))
       <= sumZ (sleeps []) + 3.
Proof.
  apply (agent_effort_bounded scripted_chain ascii_lower
           (mkState (Some (py "Hm?")) None None) (py "Hm?")
           (mkSys [Raise OverloadedError; Ok (message (py "code"))] [])).
  reflexivity.
Defined.

Section RouteExtras.

Context {World : Type}.
Variable chain_invoke : template -> pystr -> World -> res RawResponse * World.
Variable lower : pystr -> pystr.

(** X11. One run for the question [q] calls the remote model one to three
    times with the classification prompt and then at most three times with
    one of the two answer prompts, always with [q] itself: at most six
    remote calls, and at most 6 slept in total. *)
Theorem route_effort_bounded (q : pystr) (s : Sys World) :
  exists (a b : nat) (h : template),
    (1 <= a <= 3)%nat /\ (b <= 3)%nat
    /\ (h = code_template \/ h = generic_template)
    /\ world (snd (route chain_invoke lower q s))
       = calls (chain_invoke h q) b
           (calls (chain_invoke classify_template q) a (world s))
    /\ sumZ (sleeps (trace (snd (route chain_invoke lower q s))))
       <= sumZ (sleeps (trace s)) + 6.
Proof.
  destruct (analyze_question_effort chain_invoke lower
              (mkState (Some q) None None) q (log_node "analyze" s) eq_refl)
    as (a & Ha & Hwa & Hsa).
  rewrite sleeps_log_node in Hsa. cbn [log_node world] in Hwa.
  destruct (route_cases chain_invoke lower q s)
    as [(e & _ & Hr) | [(d & _ & _ & _ & Hr) | [(_ & Hr) | (_ & Hr)]]];
    rewrite Hr.
  - exists a, O, code_template. cbn [snd calls].
    repeat split; try lia; auto.
  - exists a, O, code_template. cbn [snd calls].
    repeat split; try lia; auto.
  - rewrite snd_after_node.
    destruct (answer_code_question_effort chain_invoke
                (mkState (Some q) None (Some (py "code"))) q
                (log_node "code_agent"
                   (snd (analyze_question chain_invoke lower
                           (mkState (Some q) None None) (log_node "analyze" s))))
                eq_refl) as (b & Hb & Hwb & Hsb).
    rewrite sleeps_log_node in Hsb. cbn [log_node world] in Hwb.
    exists a, b, code_template.
    repeat split; try lia; auto. rewrite Hwb, Hwa. reflexivity.
  - rewrite snd_after_node.
    destruct (answer_generic_question_effort chain_invoke
                (mkState (Some q) None (Some (py "general"))) q
                (log_node "generic_agent"
                   (snd (analyze_question chain_invoke lower
                           (mkState (Some q) None None) (log_node "analyze" s))))
                eq_refl) as (b & Hb & Hwb & Hsb).
    rewrite sleeps_log_node in Hsb. cbn [log_node world] in Hwb.
    exists a, b, generic_template.
    repeat split; try lia; auto. rewrite Hwb, Hwa. reflexivity.
Qed.

(** X12. A run that returns has kept the question under [input], recorded
    the decision [code] or [general], and stored under [output] the
    response the remote model returned to a call made with the matching
    answer template and the question itself: never [None], never anything
    else. *)
Theorem route_success_shape (q : pystr) (s : Sys World) :
  match route chain_invoke lower q s with
  | (Ok st, s') =>
      input st = Some q
      /\ exists (r : RawResponse) (h : template) (w : World),
           output st = Some (Some r)
           /\ chain_invoke h q w = (Ok r, world s')
           /\ ((h = code_template /\ decision st = Some (py "code"))
               \/ (h = generic_template /\ decision st = Some (py "general")))
  | (Raise _, _) => True
  end.
Proof.
  destruct (route_cases chain_invoke lower q s)
    as [(e & _ & Hr) | [(d & _ & _ & _ & Hr) | [(_ & Hr) | (_ & Hr)]]];
    rewrite Hr; try exact I.
  - destruct (answer_code_question chain_invoke _ _) as [[upd | e] s2] eqn:Hh;
      [| exact I].
    destruct (answer_code_question_remote chain_invoke _ _ _ _ Hh)
      as (q' & r & j & Hq & _ & Hcall & ->).
    injection Hq as <-. cbn. split; [reflexivity |].
    exists r, code_template. eexists. split; [reflexivity |].
    split; [exact Hcall | left; split; reflexivity].
  - destruct (answer_generic_question chain_invoke _ _) as [[upd | e] s2] eqn:Hh;
      [| exact I].
    destruct (answer_generic_question_remote chain_invoke _ _ _ _ Hh)
      as (q' & r & j & Hq & _ & Hcall & ->).
    injection Hq as <-. cbn. split; [reflexivity |].
    exists r, generic_template. eexists. split; [reflexivity |].
    split; [exact Hcall | right; split; reflexivity].
Qed.

End RouteExtras.

(** ** The response formatter: whitespace, noise and the expected format *)

Section FormatterMore.

Lemma lstrip_blank_app (b x : pystr) :
  blank b = true -> lstrip (b ++ x) = lstrip x.
Proof.
  induction b as [|c b IH]; intros Hb; [reflexivity |].
  cbn [blank forallb] in Hb. apply andb_true_iff in Hb as [Hc Hb].
  cbn [app lstrip]. rewrite Hc. apply IH. exact Hb.
Qed.

Lemma rstrip_blank (b : pystr) : blank b = true -> rstrip b = [].
Proof.
  induction b as [|c b IH]; intros Hb; [reflexivity |].
  cbn [blank forallb] in Hb. apply andb_true_iff in Hb as [Hc Hb].
  cbn [rstrip]. rewrite (IH Hb), Hc. reflexivity.
Qed.

Lemma rstrip_app_blank (x b : pystr) :
  blank b = true -> rstrip (x ++ b) = rstrip x.
Proof.
  intros Hb. induction x as [|c x IH]; [apply rstrip_blank; exact Hb |].
  cbn [app rstrip]. rewrite IH. reflexivity.
Qed.

Lemma strip_pad (pre x post : pystr) :
  blank pre = true -> blank post = true -> strip (pre ++ x ++ post) = strip x.
Proof.
  intros Hpre Hpost. unfold strip.
  rewrite (lstrip_blank_app _ _ Hpre), <- !lstrip_rstrip.
  rewrite (rstrip_app_blank _ _ Hpost). reflexivity.
Qed.

Lemma lstrip_idem (s : pystr) : lstrip (lstrip s) = lstrip s.
Proof.
  pose proof (lstrip_head s) as Hh.
  destruct (lstrip s) as [|c r]; [reflexivity |].
  apply lstrip_nonspace. exact Hh.
Qed.

Lemma strip_idem (s : pystr) : strip (strip s) = strip s.
Proof.
  unfold strip. rewrite (lstrip_rstrip (lstrip s)), lstrip_idem, rstrip_idem.
  reflexivity.
Qed.

Lemma parse_line_strip (st : ParseState) (l : pystr) :
  parse_line st (strip l) = parse_line st l.
Proof. unfold parse_line. rewrite strip_idem. reflexivity. Qed.

Lemma parse_line_empty (st : ParseState) (l : pystr) :
  strip l = [] -> parse_line st l = st.
Proof. intros Hl. unfold parse_line. rewrite Hl. reflexivity. Qed.

(** The loop only sees the trimmed, non-empty lines. *)
Lemma fold_parse_norm (ls : list pystr) :
  forall st : ParseState,
    fold_left parse_line ls st = fold_left parse_line (norm ls) st.
Proof.
  induction ls as [|l ls IH]; intros st; [reflexivity |].
  unfold norm. cbn [List.map List.filter fold_left].
  destruct (strip l) as [|c r] eqn:Hl; cbn [nonempty].
  - rewrite (parse_line_empty st l Hl). apply IH.
  - cbn [fold_left]. rewrite <- Hl, parse_line_strip. apply IH.
Qed.

Lemma norm_app (l1 l2 : list pystr) : norm (l1 ++ l2) = norm l1 ++ norm l2.
Proof. unfold norm. rewrite List.map_app, List.filter_app. reflexivity. Qed.

Lemma split_nonempty (sep : char) (s : pystr) : split sep s <> [].
Proof.
  destruct s as [|c r]; [discriminate |].
  cbn [split]. destruct (c =? sep)%N; [discriminate |].
  destruct (split sep r); discriminate.
Qed.

Lemma split_app (sep : char) (a b : pystr) :
  split sep (a ++ b)
  = List.removelast (split sep a)
      ++ (List.last (split sep a) [] ++ List.hd [] (split sep b))
      :: List.tl (split sep b).
Proof.
  induction a as [|c a IH].
  - cbn. pose proof (split_nonempty sep b) as Hb.
    destruct (split sep b); [contradiction | reflexivity].
  - cbn [app split]. rewrite IH.
    pose proof (split_nonempty sep a) as Ha.
    destruct (c =? sep)%N.
    + destruct (split sep a) as [|h t]; [contradiction | reflexivity].
    + destruct (split sep a) as [|h t]; [contradiction |].
      destruct t as [|h' t']; reflexivity.
Qed.

Lemma blank_cons (c : char) (s : pystr) :
  blank (c :: s) = is_space c && blank s.
Proof. reflexivity. Qed.

Lemma split_blank (b : pystr) :
  blank b = true -> forallb blank (split nl b) = true.
Proof.
  induction b as [|c b IH]; intros Hb; [reflexivity |].
  rewrite blank_cons in Hb. apply andb_true_iff in Hb as [Hc Hb].
  specialize (IH Hb). cbn [split].
  destruct (c =? nl)%N; [exact IH |].
  pose proof (split_nonempty nl b) as Hne.
  destruct (split nl b) as [|h t]; [contradiction |].
  cbn [forallb] in *. apply andb_true_iff in IH as [Hh Ht].
  rewrite blank_cons, Hc, Hh, Ht. reflexivity.
Qed.

Lemma norm_blank_lines (ls : list pystr) :
  forallb blank ls = true -> norm ls = [].
Proof.
  induction ls as [|l ls IH]; intros Hls; [reflexivity |].
  cbn [forallb] in Hls. apply andb_true_iff in Hls as [Hl Hls].
  unfold norm. cbn [List.map List.filter].
  unfold strip. rewrite <- lstrip_rstrip, (rstrip_blank l Hl). cbn.
  apply IH. exact Hls.
Qed.

Lemma forallb_removelast {X : Type} (f : X -> bool) (l : list X) :
  forallb f l = true -> forallb f (List.removelast l) = true.
Proof.
  induction l as [|x l IH]; intros Hl; [reflexivity |].
  cbn [forallb] in Hl. apply andb_true_iff in Hl as [Hx Hl].
  cbn [List.removelast]. destruct l as [|y l']; [reflexivity |].
  cbn [forallb]. rewrite Hx. apply IH. exact Hl.
Qed.

Lemma forallb_tl {X : Type} (f : X -> bool) (l : list X) :
  forallb f l = true -> forallb f (List.tl l) = true.
Proof.
  destruct l as [|x l]; [reflexivity |].
  cbn [forallb List.tl]. intros H. apply andb_true_iff in H as [_ H]. exact H.
Qed.

Lemma forallb_last (f : pystr -> bool) (l : list pystr) :
  f [] = true -> forallb f l = true -> f (List.last l []) = true.
Proof.
  intros Hd. induction l as [|x l IH]; intros Hl; [exact Hd |].
  cbn [forallb] in Hl. apply andb_true_iff in Hl as [Hx Hl].
  destruct l as [|y l']; [exact Hx |]. apply IH. exact Hl.
Qed.

Lemma forallb_hd (f : pystr -> bool) (l : list pystr) :
  f [] = true -> forallb f l = true -> f (List.hd [] l) = true.
Proof.
  intros Hd. destruct l as [|x l]; [intros _; exact Hd |].
  cbn [forallb List.hd]. intros H. apply andb_true_iff in H as [H _]. exact H.
Qed.

Lemma norm_single_pre (pre x : pystr) :
  blank pre = true -> norm [pre ++ x] = norm [x].
Proof.
  intros Hpre. unfold norm. cbn [List.map].
  rewrite <- (app_nil_r x) at 1.
  rewrite (strip_pad pre x [] Hpre eq_refl). reflexivity.
Qed.

Lemma norm_single_post (x post : pystr) :
  blank post = true -> norm [x ++ post] = norm [x].
Proof.
  intros Hpost. unfold norm. cbn [List.map].
  change (x ++ post) with ([] ++ x ++ post).
  rewrite (strip_pad [] x post eq_refl Hpost). reflexivity.
Qed.

Lemma removelast_last_split (s : pystr) :
  List.removelast (split nl s) ++ [List.last (split nl s) []] = split nl s.
Proof.
  symmetry. apply List.app_removelast_last. apply split_nonempty.
Qed.

Lemma hd_tl_split (s : pystr) :
  List.hd [] (split nl s) :: List.tl (split nl s) = split nl s.
Proof.
  pose proof (split_nonempty nl s) as Hne.
  destruct (split nl s); [contradiction | reflexivity].
Qed.

(** Blanks around a text do not change the lines the loop sees. *)
Lemma norm_split_pad (pre x post : pystr) :
  blank pre = true -> blank post = true ->
  norm (split nl (pre ++ x ++ post)) = norm (split nl x).
Proof.
  intros Hpre Hpost.
  pose proof (split_blank pre Hpre) as Hlpre.
  pose proof (split_blank post Hpost) as Hlpost.
  assert (Hright : norm (split nl (x ++ post)) = norm (split nl x)).
  { rewrite split_app.
    change (?a ++ ?b :: ?c) with (a ++ [b] ++ c).
    rewrite !norm_app.
    rewrite (norm_blank_lines _ (forallb_tl _ _ Hlpost)), app_nil_r.
    rewrite (norm_single_post _ _ (forallb_hd blank _ eq_refl Hlpost)).
    rewrite <- norm_app, removelast_last_split. reflexivity. }
  rewrite split_app.
  change (?a ++ ?b :: ?c) with (a ++ [b] ++ c).
  rewrite !norm_app.
  rewrite (norm_blank_lines _ (forallb_removelast _ _ Hlpre)), app_nil_l.
  rewrite (norm_single_pre _ _ (forallb_last blank _ eq_refl Hlpre)).
  rewrite <- norm_app. change ([?a] ++ ?c) with (a :: c).
  rewrite hd_tl_split. exact Hright.
Qed.

Lemma norm_split_strip (t : pystr) :
  norm (split nl (strip t)) = norm (split nl t).
Proof.
  destruct (strip_spec t) as (pre & post & Heq & Hpre & Hpost).
  rewrite Heq at 2. symmetry. apply norm_split_pad; assumption.
Qed.

End FormatterMore.

Section FormatterFormat.

Lemma rstrip_nonspace_prefix (p rest : pystr) :
  forallb (fun c => negb (is_space c)) p = true ->
  rstrip (p ++ rest) = p ++ rstrip rest.
Proof.
  induction p as [|c p IH]; intros Hp; [reflexivity |].
  cbn [forallb] in Hp. apply andb_true_iff in Hp as [Hc Hp].
  apply negb_true_iff in Hc.
  cbn [app]. rewrite (rstrip_nonspace _ _ Hc), (IH Hp). reflexivity.
Qed.

Lemma strip_nonspace_prefix (c : char) (p rest : pystr) :
  forallb (fun c => negb (is_space c)) (c :: p) = true ->
  strip ((c :: p) ++ rest) = (c :: p) ++ rstrip rest.
Proof.
  intros Hp. unfold strip.
  assert (Hc : is_space c = false).
  { cbn [forallb] in Hp. apply andb_true_iff in Hp as [Hc _].
    apply negb_true_iff in Hc. exact Hc. }
  cbn [app]. rewrite (lstrip_nonspace _ _ Hc).
  apply (rstrip_nonspace_prefix (c :: p) rest Hp).
Qed.

Lemma strip_supporting (rest : pystr) :
  strip (SUPPORTING_DETAILS ++ rest) = SUPPORTING_DETAILS ++ rstrip rest.
Proof.
  apply (strip_nonspace_prefix 83%N (List.tl SUPPORTING_DETAILS) rest eq_refl).
Qed.

Lemma supporting_not_main_answer (x : pystr) :
  startswith MAIN_ANSWER (SUPPORTING_DETAILS ++ x) = false.
Proof. reflexivity. Qed.

(** A line with the [SUPPORTING_DETAILS:] prefix opens the detail section
    and stores nothing, whatever follows the prefix on the line. *)
Lemma parse_line_supporting (st : ParseState) (rest : pystr) :
  parse_line st (SUPPORTING_DETAILS ++ rest)
  = mkParse (Some in_supporting_details) (acc_content st).
Proof.
  unfold parse_line. rewrite strip_supporting.
  change (SUPPORTING_DETAILS ++ rstrip rest)
    with (83%N :: List.tl SUPPORTING_DETAILS ++ rstrip rest).
  cbv iota beta zeta.
  change (83%N :: List.tl SUPPORTING_DETAILS ++ rstrip rest)
    with (SUPPORTING_DETAILS ++ rstrip rest).
  rewrite supporting_not_main_answer.
  rewrite (startswith_app SUPPORTING_DETAILS SUPPORTING_DETAILS (rstrip rest) eq_refl).
  reflexivity.
Qed.

Lemma split_no_newline (l : pystr) : no_newline l = true -> split nl l = [l].
Proof.
  induction l as [|c l IH]; intros Hl; [reflexivity |].
  cbn [no_newline forallb] in Hl. apply andb_true_iff in Hl as [Hc Hl].
  apply negb_true_iff in Hc. cbn [split]. rewrite Hc, (IH Hl). reflexivity.
Qed.

Lemma split_line_app (l rest : pystr) :
  no_newline l = true -> split nl (l ++ nl :: rest) = l :: split nl rest.
Proof.
  induction l as [|c l IH]; intros Hl; [reflexivity |].
  cbn [no_newline forallb] in Hl. apply andb_true_iff in Hl as [Hc Hl].
  apply negb_true_iff in Hc. cbn [app split]. rewrite Hc, (IH Hl). reflexivity.
Qed.

Lemma split_join_lines (l : pystr) (ls : list pystr) :
  forallb no_newline (l :: ls) = true ->
  split nl (join_lines (l :: ls)) = l :: ls.
Proof.
  revert l. induction ls as [|l' ls IH]; intros l Hls.
  - cbn [forallb] in Hls. apply andb_true_iff in Hls as [Hl _].
    apply split_no_newline. exact Hl.
  - cbn [forallb] in Hls. apply andb_true_iff in Hls as [Hl Hls].
    change (join_lines (l :: l' :: ls)) with (l ++ nl :: join_lines (l' :: ls)).
    rewrite (split_line_app _ _ Hl), (IH l' Hls). reflexivity.
Qed.

Lemma no_newline_app (a b : pystr) :
  no_newline (a ++ b) = no_newline a && no_newline b.
Proof. unfold no_newline. apply forallb_app. Qed.

Lemma strip_space_cons (x : pystr) : strip (py " " ++ x) = strip x.
Proof.
  rewrite <- (app_nil_r x) at 1.
  apply (strip_pad (py " ") x [] eq_refl eq_refl).
Qed.

Lemma render_lines_no_newline (main : pystr) (details : list pystr) :
  no_newline main = true ->
  forallb no_newline details = true ->
  forallb no_newline
    ((MAIN_ANSWER ++ py " " ++ main)
       :: SUPPORTING_DETAILS
       :: List.map (fun d => DASH ++ py " " ++ d) details) = true.
Proof.
  intros Hm Hds. cbn [forallb].
  rewrite !no_newline_app, Hm.
  change (no_newline MAIN_ANSWER) with true.
  change (no_newline (py " ")) with true.
  change (no_newline SUPPORTING_DETAILS) with true.
  cbn [andb].
  induction details as [|d ds IH]; [reflexivity |].
  cbn [forallb] in Hds. apply andb_true_iff in Hds as [Hd Hds].
  cbn [List.map forallb]. rewrite !no_newline_app, Hd, (IH Hds). reflexivity.
Qed.

Lemma parse_line_trimmed (st : ParseState) (l : pystr) :
  trimmed (acc_content st) -> trimmed (acc_content (parse_line st l)).
Proof.
  intros [Hm Hd]. unfold parse_line.
  destruct (strip l) as [|c r]; [split; assumption |].
  destruct (startswith MAIN_ANSWER (c :: r)).
  { split; [apply strip_idem | exact Hd]. }
  destruct (startswith SUPPORTING_DETAILS (c :: r)); [split; assumption |].
  destruct (startswith DASH (c :: r) && is_supporting (current_section st));
    [| split; assumption].
  split; [exact Hm |]. cbn.
  apply Forall_app. split; [exact Hd |].
  constructor; [apply strip_idem | constructor].
Qed.

Lemma parse_lines_trimmed (ls : list pystr) :
  forall st : ParseState,
    trimmed (acc_content st) ->
    trimmed (acc_content (fold_left parse_line ls st)).
Proof.
  induction ls as [|l ls IH]; intros st Hst; [exact Hst |].
  cbn [fold_left]. apply IH. apply parse_line_trimmed. exact Hst.
Qed.

Lemma parse_line_details_length (st : ParseState) (l : pystr) :
  (length (supporting_details (acc_content (parse_line st l)))
   <= length (supporting_details (acc_content st))
      + (if startswith DASH (strip l) then 1 else 0))%nat.
Proof.
  unfold parse_line. destruct (strip l) as [|c r]; [cbn; lia |].
  destruct (startswith MAIN_ANSWER (c :: r)); [cbn; lia |].
  destruct (startswith SUPPORTING_DETAILS (c :: r)); [cbn; lia |].
  destruct (startswith DASH (c :: r)); [| cbn; lia].
  destruct (is_supporting (current_section st)); cbn; [| lia].
  rewrite length_app. cbn. lia.
Qed.

Lemma parse_lines_details_length (ls : list pystr) :
  forall st : ParseState,
    (length (supporting_details (acc_content (fold_left parse_line ls st)))
     <= length (supporting_details (acc_content st))
        + length (List.filter (fun l => startswith DASH (strip l)) ls))%nat.
Proof.
  induction ls as [|l ls IH]; intros st; [cbn; lia |].
  cbn [fold_left List.filter].
  pose proof (IH (parse_line st l)) as H1.
  pose proof (parse_line_details_length st l) as H2.
  destruct (startswith DASH (strip l)); cbn [length]; lia.
Qed.

End FormatterFormat.

Section FormatterExtras.

Lemma parse_line_irrelevant (st : ParseState) (l : pystr) :
  relevant l = false -> parse_line st l = st.
Proof.
  unfold relevant, parse_line. intros Hl.
  apply orb_false_iff in Hl as [Hl Hd]. apply orb_false_iff in Hl as [Hm Hs].
  destruct (strip l) as [|c r]; [reflexivity |].
  rewrite Hm, Hs, Hd. reflexivity.
Qed.

(** X14. Blanks before and after a line do not matter: the loop treats the
    padded line as the line itself (so an indented [- item] is a detail
    line and an indented marker is a marker). *)
Theorem parse_line_ignores_padding (st : ParseState) (pre l post : pystr) :
  blank pre = true ->
  blank post = true ->
  parse_line st (pre ++ l ++ post) = parse_line st l.
Proof.
  intros Hpre Hpost.
  rewrite <- (parse_line_strip st (pre ++ l ++ post)), <- (parse_line_strip st l).
  rewrite (strip_pad _ _ _ Hpre Hpost). reflexivity.
Qed.

(** X15. Lines that, once trimmed, are empty or begin with none of
    [MAIN_ANSWER:], [SUPPORTING_DETAILS:] and [-] are skipped: removing them
    from the input changes nothing, wherever they stand (they neither close
    a section nor end a list of details). *)
Theorem parse_skips_irrelevant_lines (ls : list pystr) (st : ParseState) :
  fold_left parse_line ls st
  = fold_left parse_line (List.filter relevant ls) st.
Proof.
  revert st. induction ls as [|l ls IH]; intros st; [reflexivity |].
  cbn [fold_left List.filter]. destruct (relevant l) eqn:Hl.
  - cbn [fold_left]. apply IH.
  - rewrite (parse_line_irrelevant st l Hl). apply IH.
Qed.

(** X16. Blanks (spaces, tabs, newlines, empty lines) around the whole
    content do not change the parsed content. *)
Theorem parse_response_ignores_outer_blanks (r r' : RawResponse) (pre post : pystr) :
  blank pre = true ->
  blank post = true ->
  content_text r' = pre ++ content_text r ++ post ->
  content (parse_response r') = content (parse_response r).
Proof.
  intros Hpre Hpost Heq. unfold parse_response. cbn [content].
  rewrite (fold_parse_norm (split nl (strip (content_text r')))).
  rewrite (fold_parse_norm (split nl (strip (content_text r)))).
  rewrite !norm_split_strip, Heq, (norm_split_pad _ _ _ Hpre Hpost).
  reflexivity.
Qed.

(** X17. Round trip with the format the answer prompts ask for: a response
    made of the line [MAIN_ANSWER: main], the line [SUPPORTING_DETAILS:] and
    one line [- d] per detail parses back to [main] and the details, in
    order, each trimmed -- provided no field holds a newline and [main] does
    not hold the marker [MAIN_ANSWER:]. *)
Theorem parse_render (main : pystr) (details : list pystr) :
  no_newline main = true ->
  forallb no_newline details = true ->
  occurs MAIN_ANSWER main = false ->
  content (parse_response (raw_of_str (render main details)))
  = mkContent (strip main) (List.map strip details).
Proof.
  intros Hm Hds Hocc. unfold parse_response. cbn [content content_text raw_of_str
                                                    attr_content as_text].
  rewrite fold_parse_norm, norm_split_strip, <- fold_parse_norm.
  unfold render.
  rewrite split_join_lines by (apply render_lines_no_newline; assumption).
  cbn [fold_left].
  rewrite parse_line_main_single.
  2:{ change (occurs MAIN_ANSWER (py " " ++ main))
        with (false || occurs MAIN_ANSWER main). exact Hocc. }
  rewrite <- (app_nil_r SUPPORTING_DETAILS) at 1.
  rewrite parse_line_supporting.
  rewrite <- (List.map_map (app (py " ")) (app DASH)).
  rewrite parse_lines_dash.
  cbn [current_section acc_content main_answer supporting_details is_supporting].
  rewrite strip_space_cons, List.map_map. cbn [app]. f_equal.
Qed.

(** X18. Whatever the response, the stored fields carry no blank at either
    end: trimming the main answer or a detail gives it back. *)
Theorem parse_response_fields_trimmed (r : RawResponse) :
  trimmed (content (parse_response r)).
Proof.
  unfold parse_response. cbn [content].
  apply parse_lines_trimmed. split; [reflexivity | constructor].
Qed.

(** X19. A line with the [SUPPORTING_DETAILS:] prefix opens the detail
    section and stores nothing: whatever follows the marker on the same
    line is discarded. *)
Theorem supporting_marker_discards_rest (st : ParseState) (rest : pystr) :
  parse_line st (SUPPORTING_DETAILS ++ rest)
  = mkParse (Some in_supporting_details) (acc_content st)
  /\ supporting_details (acc_content (parse_line st (SUPPORTING_DETAILS ++ rest)))
     = supporting_details (acc_content st).
Proof.
  rewrite parse_line_supporting. split; reflexivity.
Qed.

(** X20. A line with the [MAIN_ANSWER:] prefix closes the detail section:
    the dash lines that follow it are dropped (until the next
    [SUPPORTING_DETAILS:] marker), and the details gathered before are
    kept. *)
Theorem details_after_main_answer_dropped
    (st : ParseState) (l : pystr) (ts : list pystr) :
  startswith MAIN_ANSWER (strip l) = true ->
  fold_left parse_line (l :: List.map (app DASH) ts) st
  = mkParse (Some in_main_answer)
      (mkContent (strip (replace MAIN_ANSWER [] (strip l)))
                 (supporting_details (acc_content st))).
Proof.
  intros Hl. cbn [fold_left].
  rewrite (parse_line_main st l Hl), parse_lines_dash. reflexivity.
Qed.

(** X21. There are never more details than lines that begin, once trimmed,
    with a dash. *)
Theorem details_bounded_by_dash_lines (r : RawResponse) :
  (length (supporting_details (content (parse_response r)))
   <= length (List.filter (fun l => startswith DASH (strip l))
                (split nl (strip (content_text r)))))%nat.
Proof.
  unfold parse_response. cbn [content].
  apply (parse_lines_details_length _ initial_parse).
Qed.

End FormatterExtras.

Lemma parse_line_ignores_padding_witness :
  parse_line (mkParse (Some in_supporting_details) (mkContent [] []))
    (py "   " ++ py "- item" ++ py "  ")
  = parse_line (mkParse (Some in_supporting_details) (mkContent [] []))
      (py "- item").
Proof.
  apply (parse_line_ignores_padding
           (mkParse (Some in_supporting_details) (mkContent [] []))
           (py "   ") (py "- item") (py "  ")).
  - reflexivity.
  - reflexivity.
Defined.

Lemma parse_response_ignores_outer_blanks_witness :
  content (parse_response (raw_of_str ([nl; nl] ++ for_loop_text ++ py "  " ++ [nl])))
  = content (parse_response (message for_loop_text)).
Proof.
  apply (parse_response_ignores_outer_blanks
           (message for_loop_text)
           (raw_of_str ([nl; nl] ++ for_loop_text ++ py "  " ++ [nl]))
           [nl; nl] (py "  " ++ [nl])).
  - reflexivity.
  - reflexivity.
  - reflexivity.
Defined.

Lemma parse_render_witness :
  content (parse_response
             (raw_of_str (render (py "Use recursion ") [py "base case"; py " step"])))
  = mkContent (py "Use recursion") [py "base case"; py "step"].
Proof.
  apply (parse_render (py "Use recursion ") [py "base case"; py " step"]).
  - reflexivity.
  - reflexivity.
  - reflexivity.
Defined.

Lemma details_after_main_answer_dropped_witness :
  fold_left parse_line
    (py "MAIN_ANSWER: again" :: List.map (app DASH) [py " lost"; py " lost too"])
    (mkParse (Some in_supporting_details) (mkContent (py "first") [py "kept"]))
  = mkParse (Some in_main_answer) (mkContent (py "again") [py "kept"]).
Proof.
  apply (details_after_main_answer_dropped
           (mkParse (Some in_supporting_details) (mkContent (py "first") [py "kept"]))
           (py "MAIN_ANSWER: again") [py " lost"; py " lost too"]).
  reflexivity.
Defined.

Section RouteFailures.

Context {World : Type}.
Variable chain_invoke : template -> pystr -> World -> res RawResponse * World.
Variable lower : pystr -> pystr.

(** X22. Failures travel through a run unchanged.  When the classifier
    raises [e], the run raises [e] in the state the classifier left and no
    handler is started; when the handler chosen by the decision raises [e],
    the run raises [e] in the state that handler left. *)
Theorem route_propagates_failures (q : pystr) (s : Sys World) (e : exn) :
  (forall s1 : Sys World,
      analyze_question chain_invoke lower (mkState (Some q) None None)
        (log_node "analyze" s) = (Raise e, s1) ->
      route chain_invoke lower q s = (Raise e, s1)
      /\ node_events (trace s1) = node_events (trace s) ++ ["analyze"%string])
  /\ (forall (upd : AgentState) (s1 s2 : Sys World),
        analyze_question chain_invoke lower (mkState (Some q) None None)
          (log_node "analyze" s) = (Ok upd, s1) ->
        (decision upd = Some (py "code") ->
         answer_code_question chain_invoke
           (merge (mkState (Some q) None None) upd) (log_node "code_agent" s1)
         = (Raise e, s2) ->
         route chain_invoke lower q s = (Raise e, s2))
        /\ (decision upd = Some (py "general") ->
            answer_generic_question chain_invoke
              (merge (mkState (Some q) None None) upd)
              (log_node "generic_agent" s1)
            = (Raise e, s2) ->
            route chain_invoke lower q s = (Raise e, s2))).
Proof.
  split.
  - intros s1 Han. split.
    + rewrite route_unfold, Han. reflexivity.
    + pose proof (quiet_analyze_question chain_invoke lower
                    (mkState (Some q) None None) (log_node "analyze" s)) as Hq.
      rewrite Han in Hq. cbn [snd] in Hq. rewrite Hq.
      unfold log_node. cbn [trace]. apply node_events_app.
  - intros upd s1 s2 Han. split; intros Hd Hh.
    + destruct (route_after_classifier chain_invoke lower q (py "code") upd s s1
                  Han Hd) as (Hcode & _ & _).
      destruct (Hcode eq_refl) as [Hr _]. rewrite Hr, Hh. reflexivity.
    + destruct (route_after_classifier chain_invoke lower q (py "general") upd s s1
                  Han Hd) as (_ & Hgen & _).
      destruct (Hgen eq_refl) as [Hr _]. rewrite Hr, Hh. reflexivity.
Qed.

End RouteFailures.

Lemma route_propagates_failures_witness :
  route scripted_chain ascii_lower (py "Hm?")
    (mkSys [Raise AuthenticationError; Ok (message (py "code"))] [])
  = (Raise AuthenticationError,
     mkSys [Ok (message (py "code"))]
       [EvNode "analyze"; EvPrint NAnalyzing; EvPrint NAuthError]).
Proof.
  refine (proj1 (proj1 (route_propagates_failures scripted_chain ascii_lower
                          (py "Hm?")
                          (mkSys [Raise AuthenticationError;
                                  Ok (message (py "code"))] [])
                          AuthenticationError)
                   (mkSys [Ok (message (py "code"))]
                      [EvNode "analyze"; EvPrint NAnalyzing; EvPrint NAuthError])
                   _)).
  reflexivity.
Defined.
